(** * Vulkava: node connection lifecycle and player orchestration

    A shallow embedding of [Node] (the per-node websocket connection) and
    [Player] (the per-guild playback session) of the Vulkava Lavalink client,
    together with the properties of their state machines.

    Conventions of the embedding.
    - JavaScript numbers that the code only uses as integers (retry counters,
      millisecond positions and timestamps, player counts, close codes) are
      [Z]; they are exact in a double below 2^53.
    - A method is a function from the object's state to a completion: it
      either returns normally or throws, and in both cases carries the state
      reached and the trace of effects performed so far, because assignments
      made before a [throw] stay visible to the caller.
    - [Node] objects are shared between the registry and the players, so a
      player holds the address of its node and reads the node through the
      registry's heap. *)

From Stdlib Require Import ZArith List String Bool Lia DecimalString.
Import ListNotations.

Open Scope string_scope.
Open Scope list_scope.
Open Scope Z_scope.

(** ** JavaScript values *)

(** A value of a type [T | null | undefined]. *)
Inductive Ref (A : Type) : Type :=
| Null
| Undefined
| Val (a : A).
Arguments Null {A}.
Arguments Undefined {A}.
Arguments Val {A} a.

(** [!r] for an object-valued [r]. *)
Definition falsy {A : Type} (r : Ref A) : bool :=
  match r with
  | Val _ => false
  | _ => true
  end.

(** [r === null]: strict equality does not identify [undefined] with [null]. *)
Definition is_null {A : Type} (r : Ref A) : bool :=
  match r with
  | Null => true
  | _ => false
  end.

(** [o ?? d] for an optional configuration field. *)
Definition nullish {A : Type} (o : option A) (d : A) : A :=
  match o with
  | Some a => a
  | None => d
  end.

#[local] Set Warnings "-register-all".
Inductive JsVal : Type :=
| JUndefined
| JNull
| JBool (b : bool)
| JNum (z : Z)
| JStr (s : string)
| JObj (fields : list (string * JsVal)).

(** An object literal, as its own enumerable properties in insertion order. *)
Definition Obj : Type := list (string * JsVal).

(** [o[k] = v]: an existing key keeps its place, a new one goes last. *)
Fixpoint obj_set (o : Obj) (k : string) (v : JsVal) : Obj :=
  match o with
  | [] => [(k, v)]
  | (k', v') :: o' =>
      if String.eqb k' k then (k', v) :: o' else (k', v') :: obj_set o' k v
  end.

(** [o[k]]. *)
Definition obj_get (o : Obj) (k : string) : JsVal :=
  match find (fun kv => String.eqb (fst kv) k) o with
  | Some (_, v) => v
  | None => JUndefined
  end.

(** [{ ...o, ...src }]. *)
Definition obj_spread (o src : Obj) : Obj :=
  fold_left (fun acc kv => obj_set acc (fst kv) (snd kv)) src o.

(** [Object.keys(o).length]. *)
Definition obj_keys_length (o : Obj) : Z := Z.of_nat (List.length o).

(** Truthiness of a number that is not NaN, and of a string. *)
Definition num_truthy (z : Z) : bool := negb (z =? 0).
Definition str_truthy (s : string) : bool := negb (String.eqb s "").

(** [`${z}`] for an integral number. *)
Definition string_of_Z (z : Z) : string := NilZero.string_of_int (Z.to_int z).

Inductive JsError : Type :=
| Error (msg : string)
| TypeError (msg : string)
| SyntaxError (msg : string).

(** ** Completions: state, trace and exceptions *)

Section Exec.
Context {S E : Type}.

Inductive Completion (A : Type) : Type :=
| Normal (a : A) (s : S) (tr : list E)
| Throw (e : JsError) (s : S) (tr : list E).
Arguments Normal {A} a s tr.
Arguments Throw {A} e s tr.

Definition M (A : Type) : Type := S -> Completion A.

Definition ret {A : Type} (a : A) : M A := fun s => Normal a s [].

Definition bind {A B : Type} (c : M A) (k : A -> M B) : M B :=
  fun s =>
    match c s with
    | Normal a s1 tr1 =>
        match k a s1 with
        | Normal b s2 tr2 => Normal b s2 (tr1 ++ tr2)
        | Throw e s2 tr2 => Throw e s2 (tr1 ++ tr2)
        end
    | Throw e s1 tr1 => Throw e s1 tr1
    end.

Definition get : M S := fun s => Normal s s [].
Definition modify (f : S -> S) : M unit := fun s => Normal tt (f s) [].
Definition emit (e : E) : M unit := fun s => Normal tt s [e].
Definition throw {A : Type} (e : JsError) : M A := fun s => Throw e s [].

(** The state a call leaves behind, whether it returned or threw. *)
Definition final {A : Type} (c : Completion A) : S :=
  match c with
  | Normal _ s _ => s
  | Throw _ s _ => s
  end.

Definition trace {A : Type} (c : Completion A) : list E :=
  match c with
  | Normal _ _ tr => tr
  | Throw _ _ tr => tr
  end.

Definition thrown {A : Type} (c : Completion A) : option JsError :=
  match c with
  | Normal _ _ _ => None
  | Throw e _ _ => Some e
  end.
End Exec.

Arguments Completion S E A : clear implicits.
Arguments M S E A : clear implicits.
Arguments Normal {S E A} a s tr.
Arguments Throw {S E A} e s tr.

Declare Scope exec_scope.
Delimit Scope exec_scope with exec.
Notation "x <- c ;; k" := (bind c (fun x => k))
  (at level 61, c at next level, right associativity) : exec_scope.
Notation "c ;; k" := (bind c (fun _ => k))
  (at level 61, right associativity) : exec_scope.
Open Scope exec_scope.

(** ** Node: the connection to one Lavalink node (src/unnamed/part_000) *)

Module Node.

Inductive State : Type :=
| CONNECTING
| CONNECTED
| DISCONNECTED.

Definition State_eqb (a b : State) : bool :=
  match a, b with
  | CONNECTING, CONNECTING => true
  | CONNECTED, CONNECTED => true
  | DISCONNECTED, DISCONNECTED => true
  | _, _ => false
  end.

(** [NodeOptions] is declared in [./@types]; the fields are the ones the
    class reads, optional ones as [option]. *)
Record NodeOptions : Type := {
  id : option string;
  hostname : string;
  port : Z;
  secure : bool;
  password : string;
  resumeKey : option string;
  resumeTimeout : option Z;
  maxRetryAttempts : option Z;
  retryAttemptsInterval : option Z
}.

(** The transport handle of the [ws] package, reduced to what matters
    here: the arguments it was opened with, the [OPEN] property that [send]
    consults, and the [readyState] the socket is in.  [OPEN] is the name of
    a ready state, the same number on every handle; whether a socket is
    open is [readyState === OPEN]. *)
Record WebSocket : Type := {
  ws_url : string;
  ws_headers : list (string * string);
  ws_OPEN : Z;
  ws_readyState : Z
}.

(** The ready states of a socket. *)
Definition WS_CONNECTING : Z := 0.
Definition WS_OPEN : Z := 1.
Definition WS_CLOSING : Z := 2.
Definition WS_CLOSED : Z := 3.

Definition set_readyState (rs : Z) (w : WebSocket) : WebSocket :=
  {| ws_url := ws_url w; ws_headers := ws_headers w; ws_OPEN := ws_OPEN w;
     ws_readyState := rs |}.

(** Load statistics pushed by the node; [Player] reads [stats.players].
    The field belongs to the [Node] revision [Player.ts] is written
    against and is carried here so that both classes share one record. *)
Record NodeStats : Type := {
  players : Z
}.

Record t : Type := {
  resumed : option bool;
  options : NodeOptions;
  ws : option WebSocket;
  retryAttempts : Z;
  state : State;
  stats : NodeStats
}.

Definition set_resumed (v : option bool) (n : t) : t :=
  {| resumed := v; options := options n; ws := ws n;
     retryAttempts := retryAttempts n; state := state n; stats := stats n |}.
Definition set_ws (v : option WebSocket) (n : t) : t :=
  {| resumed := resumed n; options := options n; ws := v;
     retryAttempts := retryAttempts n; state := state n; stats := stats n |}.
Definition set_retryAttempts (v : Z) (n : t) : t :=
  {| resumed := resumed n; options := options n; ws := ws n;
     retryAttempts := v; state := state n; stats := stats n |}.
Definition set_state (v : State) (n : t) : t :=
  {| resumed := resumed n; options := options n; ws := ws n;
     retryAttempts := retryAttempts n; state := v; stats := stats n |}.

Inductive Callback : Type :=
| CbConnect.

Inductive Event : Type :=
| nodeConnect
| nodeDisconnect
| nodeResume
| nodeError (e : JsError)
| raw (payload : JsVal).

(** What a method does to the outside world.  [WsSend] is the call
    [ws.send(JSON.stringify(payload))], kept as the payload it serialises;
    [WsClose] is the call [ws.close(code, reason)]. *)
Inductive Effect : Type :=
| WsNew (w : WebSocket)
| WsSend (payload : Obj)
| WsClose (code : Z) (reason : string)
| WsRemoveAllListeners
| Emit (ev : Event)
| SetTimeout (cb : Callback) (ms : Z).

(** The surroundings of a node: the owning client's id, the package
    version, the value the transport library gives the [OPEN] property of
    a handle, the addresses its constructor can parse, and [JSON.parse]. *)
Record Env : Type := {
  clientId : string;
  VERSION : string;
  WebSocket_OPEN : Z;
  WebSocket_accepts : string -> bool;
  JSON_parse : string -> option JsVal
}.

Definition Meth : Type := M t Effect unit.

(** [constructor(vulkava, options)]; the load statistics start at what
    the caller supplies. *)
Definition new (opts : NodeOptions) (st : NodeStats) : t :=
  {| resumed := None; options := opts; ws := None;
     retryAttempts := -1; state := DISCONNECTED; stats := st |}.

Definition identifier (n : t) : string :=
  nullish (id (options n)) (hostname (options n)).

Definition connect_url (o : NodeOptions) : string :=
  ("ws" ++ (if secure o then "s" else "") ++ "://" ++ hostname o ++ ":"
     ++ string_of_Z (port o))%string.

Definition connect_headers (env : Env) (o : NodeOptions) : list (string * string) :=
  [("Authorization", password o);
   ("User-Id", clientId env);
   ("Client-Name", ("Vulkava/" ++ VERSION env)%string)]
  ++ match resumeKey o with
     | Some k => if str_truthy k then [("Resume-Key", k)] else []
     | None => []
     end.

(** [this.ws = new WebSocket(url, { headers })]: the constructor throws on
    an address it cannot parse, before anything is assigned; otherwise the
    node holds a socket that is CONNECTING. *)
Definition new_WebSocket (env : Env) (url : string)
           (headers : list (string * string)) : Meth :=
  if negb (WebSocket_accepts env url)
  then throw (SyntaxError ("Invalid URL: " ++ url)%string)
  else
    let w := {| ws_url := url;
                ws_headers := headers;
                ws_OPEN := WebSocket_OPEN env;
                ws_readyState := WS_CONNECTING |} in
    modify (set_ws (Some w)) ;;
    emit (WsNew w).

Definition connect (env : Env) : Meth :=
  n <- get ;;
  if negb (State_eqb (state n) DISCONNECTED) then ret tt
  else
    modify (fun n => set_retryAttempts (retryAttempts n + 1) n) ;;
    modify (set_state CONNECTING) ;;
    new_WebSocket env (connect_url (options n))
                  (connect_headers env (options n)).

(** [ws.close(code, reason)] moves a socket that is not yet CLOSED to
    CLOSING at once; the close event comes later. *)
Definition closing (w : WebSocket) : WebSocket :=
  if ws_readyState w =? WS_CLOSED then w else set_readyState WS_CLOSING w.

Definition disconnect : Meth :=
  n <- get ;;
  match state n, ws n with
  | DISCONNECTED, _ => ret tt
  | _, None => ret tt
  | _, Some w =>
      emit (WsClose 1000 "Vulkava: disconnect") ;;
      modify (set_ws (Some (closing w)))
  end.

(** Whether the node's socket is open: [this.ws?.readyState === OPEN]. *)
Definition transport_open (n : t) : bool :=
  match ws n with
  | Some w => ws_readyState w =? WS_OPEN
  | None => false
  end.

(** [this.ws?.OPEN], as a truth value. *)
Definition ws_reports_open (n : t) : bool :=
  match ws n with
  | Some w => num_truthy (ws_OPEN w)
  | None => false
  end.

Definition send (payload : Obj) : Meth :=
  n <- get ;;
  if negb (State_eqb (state n) CONNECTED) || negb (ws_reports_open n)
  then ret tt
  else emit (WsSend payload).

Definition setupResuming : Meth :=
  n <- get ;;
  match resumeKey (options n) with
  | None => ret tt
  | Some k =>
      if negb (str_truthy k) then ret tt
      else
        send [("op", JStr "configureResuming");
              ("key", JStr k);
              ("timeout", JNum (nullish (resumeTimeout (options n)) 60))]
  end.

Definition open : Meth :=
  modify (set_state CONNECTED) ;;
  emit (Emit nodeConnect) ;;
  n <- get ;;
  (match resumed n with
   | Some true => ret tt
   | _ => setupResuming
   end) ;;
  modify (set_resumed None).

Definition message (env : Env) (data : string) : Meth :=
  match JSON_parse env data with
  | None => throw (SyntaxError "Unexpected token in JSON")
  | Some payload => emit (Emit (raw payload))
  end.

Definition error (err : JsError) : Meth :=
  emit (Emit (nodeError err)).

Definition close_message (code : Z) (reason : string) : string :=
  ("WebSocket closed abnormally with code " ++ string_of_Z code ++ ": "
     ++ reason)%string.

Definition close (code : Z) (reason : string) (wasClean : bool) : Meth :=
  modify (set_state DISCONNECTED) ;;
  n <- get ;;
  (match ws n with
   | Some _ => emit WsRemoveAllListeners
   | None => ret tt
   end) ;;
  modify (set_ws None) ;;
  if wasClean then emit (Emit nodeDisconnect)
  else
    emit (Emit (nodeError (Error (close_message code reason)))) ;;
    n <- get ;;
    if retryAttempts n <? nullish (maxRetryAttempts (options n)) 10
    then emit (SetTimeout CbConnect (nullish (retryAttemptsInterval (options n)) 5000))
    else ret tt.

Definition header_lookup (k : string) (hs : list (string * string)) : option string :=
  option_map snd (find (fun kv => String.eqb (fst kv) k) hs).

Definition upgrade (msg_headers : list (string * string)) : Meth :=
  match header_lookup "session-resumed" msg_headers with
  | Some v =>
      if String.eqb v "true"
      then modify (set_resumed (Some true)) ;; emit (Emit nodeResume)
      else ret tt
  | None => ret tt
  end.

(** The socket is OPEN when it delivers its open event. *)
Definition opened : Meth :=
  modify (fun n => set_ws (option_map (set_readyState WS_OPEN) (ws n)) n).

(** Every way the class is entered: the public methods and the handlers
    the websocket invokes. *)
Inductive Op : Type :=
| OpConnect
| OpDisconnect
| OpSend (payload : Obj)
| OpSetupResuming
| OpOpen
| OpMessage (data : string)
| OpError (err : JsError)
| OpClose (code : Z) (reason : string) (wasClean : bool)
| OpUpgrade (msg_headers : list (string * string)).

Definition run (env : Env) (op : Op) : Meth :=
  match op with
  | OpConnect => connect env
  | OpDisconnect => disconnect
  | OpSend p => send p
  | OpSetupResuming => setupResuming
  | OpOpen => opened ;; open
  | OpMessage d => message env d
  | OpError e => error e
  | OpClose c r w => close c r w
  | OpUpgrade h => upgrade h
  end.

(** A history of the node: each entry runs on the state the previous one
    left, whether it returned or threw. *)
Definition run_all (env : Env) (ops : list Op) (n : t) : t :=
  fold_left (fun n op => final (run env op n)) ops n.

Definition is_connect (op : Op) : bool :=
  match op with
  | OpConnect => true
  | _ => false
  end.

(** The connection attempts of a history: the [connect] calls that find
    the node DISCONNECTED and therefore open a transport. *)
Fixpoint attempts (env : Env) (ops : list Op) (n : t) : Z :=
  match ops with
  | [] => 0
  | op :: ops' =>
      (if is_connect op && State_eqb (state n) DISCONNECTED then 1 else 0)
      + attempts env ops' (final (run env op n))
  end.

Definition is_write (e : Effect) : bool :=
  match e with
  | WsSend _ => true
  | _ => false
  end.

Definition is_timer (e : Effect) : bool :=
  match e with
  | SetTimeout _ _ => true
  | _ => false
  end.





(** The reconnect the close handler leaves on the timer queue, if any. *)
Definition scheduled_reconnect (tr : list Effect) : option Z :=
  match find (fun e => match e with SetTimeout CbConnect _ => true | _ => false end) tr with
  | Some (SetTimeout CbConnect ms) => Some ms
  | _ => None
  end.

(** The retry loop the timer drives when every attempt ends in an unclean
    close: [connect], the close event, and, if a reconnect was scheduled,
    the timer firing.  Returns the number of connection attempts made and
    the node they leave. *)
Fixpoint retry_loop (env : Env) (code : Z) (reason : string)
         (fuel : nat) (n : t) : Z * t :=
  match fuel with
  | O => (0, n)
  | S fuel' =>
      let n1 := final (connect env n) in
      let c := close code reason false n1 in
      match scheduled_reconnect (trace c) with
      | Some _ =>
          let r := retry_loop env code reason fuel' (final c) in
          (1 + fst r, snd r)
      | None => (1, final c)
      end
  end.

End Node.

(** ** Array.prototype.sort *)

(** ECMAScript requires [sort] to be stable, and for a consistent comparator
    the stable sorted arrangement is unique; insertion from the right,
    placing an element before the first one it does not compare greater
    than, computes it. *)
Section Sort.
Context {A : Type} (cmp : A -> A -> Z).

Fixpoint insert (x : A) (l : list A) : list A :=
  match l with
  | [] => [x]
  | y :: l' => if cmp x y <=? 0 then x :: y :: l' else y :: insert x l'
  end.

Definition sort (l : list A) : list A := fold_right insert [] l.
End Sort.

(** ** Player: the playback session of one guild (src/lib/Player.ts) *)

Module Player.

Inductive State : Type :=
| DISCONNECTED
| CONNECTING
| CONNECTED.

Definition State_eqb (a b : State) : bool :=
  match a, b with
  | DISCONNECTED, DISCONNECTED => true
  | CONNECTING, CONNECTING => true
  | CONNECTED, CONNECTED => true
  | _, _ => false
  end.

(** The address of a [Node] object; [===] on nodes is equality of
    addresses. *)
Definition addr : Type := nat.

(** The part of the owning client a player reads: the configured nodes in
    configuration order, and the store holding their current state. *)
Record Vulkava : Type := {
  nodes : list addr;
  heap : addr -> Node.t
}.

Record Track : Type := {
  encodedTrack : string;
  duration : Z
}.

Record PlayerOptions : Type := {
  o_guildId : string;
  o_voiceChannelId : string;
  o_textChannelId : option string;
  o_selfDeaf : option bool;
  o_selfMute : option bool
}.

(** A player-status report of the node. *)
Record PlayerState : Type := {
  ps_position : option Z;
  ps_connected : bool
}.

Record t : Type := {
  node : Ref addr;
  guildId : string;
  voiceChannelId : string;
  textChannelId : option string;
  selfDeaf : bool;
  selfMute : bool;
  current : Ref Track;
  queue : list Track;
  queueRepeat : bool;
  trackRepeat : bool;
  position : Z;
  positionTimestamp : Z;
  playing : bool;
  paused : bool;
  state : State;
  voiceState : Obj;
  (** not assigned by the constructor: [None] is [undefined] *)
  moving : option bool
}.

Definition set_node (v : Ref addr) (p : t) : t :=
  {| node := v; guildId := guildId p; voiceChannelId := voiceChannelId p;
     textChannelId := textChannelId p; selfDeaf := selfDeaf p;
     selfMute := selfMute p; current := current p; queue := queue p;
     queueRepeat := queueRepeat p; trackRepeat := trackRepeat p;
     position := position p; positionTimestamp := positionTimestamp p;
     playing := playing p; paused := paused p; state := state p;
     voiceState := voiceState p; moving := moving p |}.
Definition set_current (v : Ref Track) (p : t) : t :=
  {| node := node p; guildId := guildId p; voiceChannelId := voiceChannelId p;
     textChannelId := textChannelId p; selfDeaf := selfDeaf p;
     selfMute := selfMute p; current := v; queue := queue p;
     queueRepeat := queueRepeat p; trackRepeat := trackRepeat p;
     position := position p; positionTimestamp := positionTimestamp p;
     playing := playing p; paused := paused p; state := state p;
     voiceState := voiceState p; moving := moving p |}.
Definition set_queue (v : list Track) (p : t) : t :=
  {| node := node p; guildId := guildId p; voiceChannelId := voiceChannelId p;
     textChannelId := textChannelId p; selfDeaf := selfDeaf p;
     selfMute := selfMute p; current := current p; queue := v;
     queueRepeat := queueRepeat p; trackRepeat := trackRepeat p;
     position := position p; positionTimestamp := positionTimestamp p;
     playing := playing p; paused := paused p; state := state p;
     voiceState := voiceState p; moving := moving p |}.
Definition set_queueRepeat (v : bool) (p : t) : t :=
  {| node := node p; guildId := guildId p; voiceChannelId := voiceChannelId p;
     textChannelId := textChannelId p; selfDeaf := selfDeaf p;
     selfMute := selfMute p; current := current p; queue := queue p;
     queueRepeat := v; trackRepeat := trackRepeat p;
     position := position p; positionTimestamp := positionTimestamp p;
     playing := playing p; paused := paused p; state := state p;
     voiceState := voiceState p; moving := moving p |}.
Definition set_trackRepeat (v : bool) (p : t) : t :=
  {| node := node p; guildId := guildId p; voiceChannelId := voiceChannelId p;
     textChannelId := textChannelId p; selfDeaf := selfDeaf p;
     selfMute := selfMute p; current := current p; queue := queue p;
     queueRepeat := queueRepeat p; trackRepeat := v;
     position := position p; positionTimestamp := positionTimestamp p;
     playing := playing p; paused := paused p; state := state p;
     voiceState := voiceState p; moving := moving p |}.
Definition set_position (v : Z) (p : t) : t :=
  {| node := node p; guildId := guildId p; voiceChannelId := voiceChannelId p;
     textChannelId := textChannelId p; selfDeaf := selfDeaf p;
     selfMute := selfMute p; current := current p; queue := queue p;
     queueRepeat := queueRepeat p; trackRepeat := trackRepeat p;
     position := v; positionTimestamp := positionTimestamp p;
     playing := playing p; paused := paused p; state := state p;
     voiceState := voiceState p; moving := moving p |}.
Definition set_paused (v : bool) (p : t) : t :=
  {| node := node p; guildId := guildId p; voiceChannelId := voiceChannelId p;
     textChannelId := textChannelId p; selfDeaf := selfDeaf p;
     selfMute := selfMute p; current := current p; queue := queue p;
     queueRepeat := queueRepeat p; trackRepeat := trackRepeat p;
     position := position p; positionTimestamp := positionTimestamp p;
     playing := playing p; paused := v; state := state p;
     voiceState := voiceState p; moving := moving p |}.
Definition set_state (v : State) (p : t) : t :=
  {| node := node p; guildId := guildId p; voiceChannelId := voiceChannelId p;
     textChannelId := textChannelId p; selfDeaf := selfDeaf p;
     selfMute := selfMute p; current := current p; queue := queue p;
     queueRepeat := queueRepeat p; trackRepeat := trackRepeat p;
     position := position p; positionTimestamp := positionTimestamp p;
     playing := playing p; paused := paused p; state := v;
     voiceState := voiceState p; moving := moving p |}.
Definition set_moving (v : option bool) (p : t) : t :=
  {| node := node p; guildId := guildId p; voiceChannelId := voiceChannelId p;
     textChannelId := textChannelId p; selfDeaf := selfDeaf p;
     selfMute := selfMute p; current := current p; queue := queue p;
     queueRepeat := queueRepeat p; trackRepeat := trackRepeat p;
     position := position p; positionTimestamp := positionTimestamp p;
     playing := playing p; paused := paused p; state := state p;
     voiceState := voiceState p; moving := v |}.

(** Calls that leave the object: [this.node.send(payload)] and
    [this.node.ping(guildId)] on the node at an address,
    [vulkava.sendWS(guildId, payload)] and [vulkava.players.delete]. *)
Inductive Effect : Type :=
| NodeSend (a : addr) (payload : Obj)
| NodePing (a : addr) (guild : string)
| SendWS (guild : string) (payload : Obj)
| PlayersDelete (guild : string).

Definition Meth : Type := M t Effect unit.

(** *** Node selection and construction *)

Definition is_connected (v : Vulkava) (a : addr) : bool :=
  Node.State_eqb (Node.state (heap v a)) Node.CONNECTED.

Definition by_players (v : Vulkava) (a b : addr) : Z :=
  Node.players (Node.stats (heap v a)) - Node.players (Node.stats (heap v b)).

(** [nodes.filter(n => n.state === CONNECTED).sort(
      (a, b) => a.stats.players - b.stats.players)[0]];
    indexing the empty array yields [undefined]. *)
Definition select_node (v : Vulkava) : Ref addr :=
  match sort (by_players v) (filter (is_connected v) (nodes v)) with
  | [] => Undefined
  | a :: _ => Val a
  end.

Definition new (v : Vulkava) (o : PlayerOptions) : t :=
  {| guildId := o_guildId o;
     voiceChannelId := o_voiceChannelId o;
     textChannelId := o_textChannelId o;
     selfDeaf := nullish (o_selfDeaf o) false;
     selfMute := nullish (o_selfMute o) false;
     current := Null;
     queue := [];
     queueRepeat := false;
     trackRepeat := false;
     position := 0;
     positionTimestamp := 0;
     playing := false;
     paused := false;
     node := select_node v;
     state := DISCONNECTED;
     voiceState := [];
     moving := None |}.

(** [get exactPosition()], read when [Date.now()] is [now]. *)
Definition exactPosition (now : Z) (p : t) : Z :=
  position p + (now - positionTimestamp p).

(** *** Methods *)

(** Reading a property of [this.node]: a [TypeError] unless a node is
    there. *)
Definition deref_node (prop : string) : M t Effect addr :=
  p <- get ;;
  match node p with
  | Val a => ret a
  | Null =>
      throw (TypeError ("Cannot read properties of null (reading '" ++ prop ++ "')")%string)
  | Undefined =>
      throw (TypeError ("Cannot read properties of undefined (reading '" ++ prop ++ "')")%string)
  end.

(** [this.node.send(payload)] for an already evaluated payload. *)
Definition node_send (payload : Obj) : Meth :=
  a <- deref_node "send" ;;
  emit (NodeSend a payload).

(** [this.current.encodedTrack]. *)
Definition current_encodedTrack : M t Effect string :=
  p <- get ;;
  match current p with
  | Val tr => ret (encodedTrack tr)
  | Null =>
      throw (TypeError "Cannot read properties of null (reading 'encodedTrack')")
  | Undefined =>
      throw (TypeError "Cannot read properties of undefined (reading 'encodedTrack')")
  end.

Definition connect : Meth :=
  p <- get ;;
  if State_eqb (state p) CONNECTED then ret tt
  else if is_null (node p) then throw (Error "No available nodes!")
  else if negb (str_truthy (voiceChannelId p))
  then throw (Error "No voice channel id provided")
  else
    modify (set_state CONNECTING) ;;
    emit (SendWS (guildId p)
            [("op", JNum 4);
             ("d", JObj [("guild_id", JStr (guildId p));
                         ("channel_id", JStr (voiceChannelId p));
                         ("self_mute", JBool (selfMute p));
                         ("self_deaf", JBool (selfDeaf p))])]).

Definition disconnect : Meth :=
  p <- get ;;
  if State_eqb (state p) DISCONNECTED then ret tt
  else
    emit (SendWS (guildId p)
            [("op", JNum 4);
             ("d", JObj [("guild_id", JStr (guildId p));
                         ("channel_id", JNull)])]) ;;
    modify (set_state DISCONNECTED).

(** The voice-state requests [connect] and [disconnect] hand to the gateway. *)
Definition join_request (p : t) : Obj :=
  [("op", JNum 4);
   ("d", JObj [("guild_id", JStr (guildId p));
               ("channel_id", JStr (voiceChannelId p));
               ("self_mute", JBool (selfMute p));
               ("self_deaf", JBool (selfDeaf p))])].

Definition leave_request (p : t) : Obj :=
  [("op", JNum 4);
   ("d", JObj [("guild_id", JStr (guildId p)); ("channel_id", JNull)])].

Definition destroy_payload (p : t) : Obj :=
  [("op", JStr "destroy"); ("guildId", JStr (guildId p))].

(** [{ op: 'voiceUpdate', guildId, ...this.voiceState }]. *)
Definition voiceUpdate_payload (p : t) : Obj :=
  obj_spread [("op", JStr "voiceUpdate"); ("guildId", JStr (guildId p))]
             (voiceState p).

(** [Object.keys(this.voiceState).length], as a condition. *)
Definition has_voice (p : t) : bool :=
  num_truthy (obj_keys_length (voiceState p)).

Definition destroy : Meth :=
  disconnect ;;
  p <- get ;;
  node_send (destroy_payload p) ;;
  emit (PlayersDelete (guildId p)).

Definition sendVoiceUpdate : Meth :=
  a <- deref_node "send" ;;
  p <- get ;;
  emit (NodeSend a (voiceUpdate_payload p)).

Definition ref_eqb (r : Ref addr) (a : addr) : bool :=
  match r with
  | Val b => Nat.eqb b a
  | _ => false
  end.

Definition play_payload_at (guild track : string) (startTime : Z) : Obj :=
  [("op", JStr "play"); ("guildId", JStr guild); ("track", JStr track);
   ("startTime", JNum startTime)].

Definition moveNode (v : Vulkava) (target : Ref addr) : Meth :=
  match target with
  | Val a =>
      if negb (is_connected v a)
      then throw (Error "The provided node is not connected.")
      else
        p <- get ;;
        if ref_eqb (node p) a then ret tt
        else
          modify (set_moving (Some true)) ;;
          node_send (destroy_payload p) ;;
          modify (set_node (Val a)) ;;
          (if has_voice p
           then
             modify (set_state CONNECTING) ;;
             sendVoiceUpdate ;;
             modify (set_state CONNECTED)
           else ret tt) ;;
          if playing p && negb (falsy (current p))
          then
            track <- current_encodedTrack ;;
            node_send (play_payload_at (guildId p) track (position p))
          else modify (set_moving (Some false))
  | _ => throw (TypeError "You must provide a Node instance.")
  end.

Definition ping : Meth :=
  a <- deref_node "ping" ;;
  p <- get ;;
  emit (NodePing a (guildId p)).

(** [this.current = this.queue.shift() as Track]: on the empty queue
    [shift] returns [undefined] and the cast does nothing at run time. *)
Definition shift_into_current (p : t) : t :=
  match queue p with
  | [] => set_current Undefined p
  | tr :: rest => set_current (Val tr) (set_queue rest p)
  end.

(** The command [play] builds for a track: [{ op, guildId, track, ...options }]. *)
Definition play_payload (p : t) (tr : Track) (options : option Obj) : Obj :=
  obj_spread [("op", JStr "play"); ("guildId", JStr (guildId p));
              ("track", JStr (encodedTrack tr))]
             (nullish options []).

(** [play(options?)]; [options] is the object spread into the command,
    [None] when the argument is omitted. *)
Definition play (options : option Obj) : Meth :=
  p <- get ;;
  if is_null (node p) then throw (Error "No available nodes!")
  else if falsy (current p) && negb (trackRepeat p)
          && (Z.of_nat (List.length (queue p)) =? 0)
  then throw (Error "The queue is empty!")
  else
    (if falsy (current p) then modify shift_into_current
     else if negb (trackRepeat p) then modify shift_into_current
     else ret tt) ;;
    a <- deref_node "send" ;;
    track <- current_encodedTrack ;;
    emit (NodeSend a
            (obj_spread [("op", JStr "play"); ("guildId", JStr (guildId p));
                         ("track", JStr track)]
                        (nullish options []))).

Definition setTrackLoop (b : bool) : Meth := modify (set_trackRepeat b).
Definition setQueueLoop (b : bool) : Meth := modify (set_queueRepeat b).

(** [skip(amount = 1)], with the default already applied. *)
Definition skip (amount : Z) : Meth :=
  p <- get ;;
  if negb (playing p) then ret tt
  else
    (if amount >=? Z.of_nat (List.length (queue p))
     then modify (set_queue [])
     else modify (set_queue (skipn (Z.to_nat amount) (queue p)))) ;;
    node_send [("op", JStr "stop"); ("guildId", JStr (guildId p))].

(** [pause(state = true)]: the default applies to [undefined]. *)
Definition pause (v : JsVal) : Meth :=
  let go (b : bool) : Meth :=
    modify (set_paused b) ;;
    p <- get ;;
    node_send [("op", JStr "pause"); ("guildId", JStr (guildId p));
               ("pause", JBool b)] in
  match v with
  | JUndefined => go true
  | JBool b => go b
  | _ => throw (TypeError "State must be a boolean")
  end.

Definition seek (v : JsVal) : Meth :=
  p <- get ;;
  match playing p, current p with
  | true, Val tr =>
      match v with
      | JNum z =>
          if z >? duration tr then skip 1
          else
            node_send [("op", JStr "seek"); ("guildId", JStr (guildId p));
                       ("position", JNum z)]
      | _ => throw (TypeError "Position must be a number")
      end
  | _, _ => ret tt
  end.

Definition updatePlayer (st : PlayerState) : Meth :=
  (match ps_position st with
   | Some z => if num_truthy z then modify (set_position z) else ret tt
   | None => ret tt
   end) ;;
  p <- get ;;
  if ps_connected st
  then (if negb (State_eqb (state p) CONNECTED)
        then modify (set_state CONNECTED) else ret tt)
  else if negb (State_eqb (state p) DISCONNECTED)
  then modify (set_state DISCONNECTED)
  else ret tt.

(** The public methods, as calls. *)
Inductive Op : Type :=
| OpConnect
| OpDisconnect
| OpDestroy
| OpMoveNode (target : Ref addr)
| OpPing
| OpPlay (options : option Obj)
| OpSetTrackLoop (b : bool)
| OpSetQueueLoop (b : bool)
| OpSkip (amount : Z)
| OpPause (v : JsVal)
| OpSeek (v : JsVal)
| OpSendVoiceUpdate
| OpUpdatePlayer (st : PlayerState).

Definition run (v : Vulkava) (op : Op) : Meth :=
  match op with
  | OpConnect => connect
  | OpDisconnect => disconnect
  | OpDestroy => destroy
  | OpMoveNode target => moveNode v target
  | OpPing => ping
  | OpPlay o => play o
  | OpSetTrackLoop b => setTrackLoop b
  | OpSetQueueLoop b => setQueueLoop b
  | OpSkip n => skip n
  | OpPause b => pause b
  | OpSeek z => seek z
  | OpSendVoiceUpdate => sendVoiceUpdate
  | OpUpdatePlayer st => updatePlayer st
  end.

Definition is_updatePlayer (op : Op) : bool :=
  match op with
  | OpUpdatePlayer _ => true
  | _ => false
  end.

Definition is_moveNode (op : Op) : bool :=
  match op with
  | OpMoveNode _ => true
  | _ => false
  end.

(** A history of calls, each made against the registry as it stands at
    that moment. *)
Definition run_all (h : list (Vulkava * Op)) (p : t) : t :=
  fold_left (fun p vo => final (run (fst vo) (snd vo) p)) h p.

(** A history without migration. *)
Definition no_moveNode (h : list (Vulkava * Op)) : bool :=
  forallb (fun vo => negb (is_moveNode (snd vo))) h.

(** The arguments [pause] accepts: a boolean, or [undefined] for the
    default. *)
Definition is_pause_argument (v : JsVal) : bool :=
  match v with
  | JUndefined | JBool _ => true
  | _ => false
  end.

(** A history in which the node reports no playback status. *)
Definition no_updatePlayer (h : list (Vulkava * Op)) : bool :=
  forallb (fun vo => negb (is_updatePlayer (snd vo))) h.

(** A [play] command handed to [send]. *)
Definition is_play_command (e : Effect) : bool :=
  match e with
  | NodeSend _ payload =>
      match obj_get payload "op" with
      | JStr s => String.eqb s "play"
      | _ => false
      end
  | _ => false
  end.


End Player.

(** * Sample configurations

    Concrete nodes, registries and players on which the statements below
    are exercised. *)

Definition env0 : Node.Env :=
  {| Node.clientId := "865672817304141824";
     Node.VERSION := "1.0.0";
     Node.WebSocket_OPEN := 1;
     Node.WebSocket_accepts :=
       fun url => negb (String.eqb url "ws://lavalink.local:70000");
     Node.JSON_parse := fun _ => None |}.

(** A node configured with the defaults: ten retries, 5000 ms apart. *)
Definition opts0 : Node.NodeOptions :=
  {| Node.id := None;
     Node.hostname := "lavalink.local";
     Node.port := 2333;
     Node.secure := false;
     Node.password := "youshallnotpass";
     Node.resumeKey := None;
     Node.resumeTimeout := None;
     Node.maxRetryAttempts := None;
     Node.retryAttemptsInterval := None |}.

Definition load (k : Z) : Node.NodeStats := {| Node.players := k |}.

Definition fresh_node (k : Z) : Node.t := Node.new opts0 (load k).

(** The same node once its first connection attempt has succeeded. *)
Definition open_node (k : Z) : Node.t :=
  Node.run_all env0 [Node.OpConnect; Node.OpOpen] (fresh_node k).

(** Three configured nodes with loads 5, 2 and 8, of which the first and
    the third are connected. *)
Definition registry : Player.Vulkava :=
  {| Player.nodes := [0%nat; 1%nat; 2%nat];
     Player.heap := fun a =>
       match a with
       | 0%nat => open_node 5
       | 1%nat => fresh_node 2
       | _ => open_node 8
       end |}.

(** The same three nodes before any of them has connected. *)
Definition registry_down : Player.Vulkava :=
  {| Player.nodes := [0%nat; 1%nat; 2%nat];
     Player.heap := fun a =>
       match a with
       | 0%nat => fresh_node 5
       | 1%nat => fresh_node 2
       | _ => fresh_node 8
       end |}.

Definition popts0 : Player.PlayerOptions :=
  {| Player.o_guildId := "81384788765712384";
     Player.o_voiceChannelId := "81384788862181376";
     Player.o_textChannelId := None;
     Player.o_selfDeaf := None;
     Player.o_selfMute := None |}.

Definition trackA : Player.Track :=
  {| Player.encodedTrack := "QAAAjQIAJVJpY2sgQXN0bGV5"; Player.duration := 212000 |}.
Definition trackB : Player.Track :=
  {| Player.encodedTrack := "QAAAdwIAH0RhcnVkZSAtIFNhbmRzdG9ybQ"; Player.duration := 225000 |}.

(** A player created while nodes 0 and 2 are connected. *)
Definition player0 : Player.t := Player.new registry popts0.

(** A player created while no node is connected. *)
Definition orphan : Player.t := Player.new registry_down popts0.

(** [player0] with voice credentials, waiting for the gateway. *)
Definition player_connecting : Player.t :=
  {| Player.node := Player.node player0;
     Player.guildId := Player.guildId player0;
     Player.voiceChannelId := Player.voiceChannelId player0;
     Player.textChannelId := None;
     Player.selfDeaf := false;
     Player.selfMute := false;
     Player.current := Null;
     Player.queue := [];
     Player.queueRepeat := false;
     Player.trackRepeat := false;
     Player.position := 0;
     Player.positionTimestamp := 0;
     Player.playing := false;
     Player.paused := false;
     Player.state := Player.CONNECTING;
     Player.voiceState := [("sessionId", JStr "f5d3"); ("token", JStr "my_token");
                           ("endpoint", JStr "smart.loyal.discord.gg")];
     Player.moving := None |}.

(** [player0] playing [trackA], last reported at 42 s. *)
Definition player_playing : Player.t :=
  Player.set_position 42000
    (Player.set_current (Val trackA)
       {| Player.node := Player.node player0;
          Player.guildId := Player.guildId player0;
          Player.voiceChannelId := Player.voiceChannelId player0;
          Player.textChannelId := None;
          Player.selfDeaf := false;
          Player.selfMute := false;
          Player.current := Null;
          Player.queue := [];
          Player.queueRepeat := false;
          Player.trackRepeat := false;
          Player.position := 0;
          Player.positionTimestamp := 0;
          Player.playing := true;
          Player.paused := false;
          Player.state := Player.CONNECTED;
          Player.voiceState := Player.voiceState player_connecting;
          Player.moving := None |}).

(** A value of [Date.now()]. *)
Definition now0 : Z := 1700000000000.

(** A node configured for session resuming over TLS. *)
Definition opts_resuming : Node.NodeOptions :=
  {| Node.id := Some "eu-1";
     Node.hostname := "lavalink.example.org";
     Node.port := 443;
     Node.secure := true;
     Node.password := "youshallnotpass";
     Node.resumeKey := Some "vulkava-resume";
     Node.resumeTimeout := None;
     Node.maxRetryAttempts := Some 3;
     Node.retryAttemptsInterval := Some 1000 |}.

Definition resuming_node : Node.t := Node.new opts_resuming (load 0).


(** [player0] as it would be had its node reference been cleared. *)
Definition player_detached : Player.t := Player.set_node Null player0.

(** [player_playing] with two more tracks waiting. *)
Definition player_queued : Player.t :=
  Player.set_queue [trackB; trackA] player_playing.

(** [orphan] with two tracks queued. *)
Definition orphan_queued : Player.t := Player.set_queue [trackA; trackB] orphan.

(** [player_queued] with track-repeat on. *)
Definition player_looping : Player.t := Player.set_trackRepeat true player_queued.

(** A connected node on which the application has just called
    [disconnect()]: the socket is CLOSING and the close event has not
    arrived yet. *)
Definition closing_node : Node.t :=
  Node.run_all env0 [Node.OpConnect; Node.OpOpen; Node.OpDisconnect] (fresh_node 0).



(** * Properties of the node connection *)

Section NodeFacts.
Import Node.

Lemma State_eqb_eq (a b : State) : State_eqb a b = true <-> a = b.
Proof. destruct a, b; simpl; split; congruence. Qed.

Lemma State_eqb_neq (a b : State) : State_eqb a b = false <-> a <> b.
Proof. destruct a, b; simpl; split; congruence. Qed.

(** [send] never throws and never changes the node. *)
Lemma send_final (payload : Obj) (n : t) :
  final (send payload n) = n /\ thrown (send payload n) = None.
Proof.
  unfold send, bind, get; simpl.
  destruct (negb (State_eqb (state n) CONNECTED) || negb (ws_reports_open n));
    simpl; auto.
Qed.

Lemma setupResuming_final (n : t) : final (setupResuming n) = n.
Proof.
  unfold setupResuming, bind, get; simpl.
  destruct (resumeKey (options n)) as [k|]; simpl; auto.
  destruct (negb (str_truthy k)); simpl; auto.
  destruct (send_final
              [("op", JStr "configureResuming"); ("key", JStr k);
               ("timeout", JNum (nullish (resumeTimeout (options n)) 60))] n)
    as [Hf _].
  destruct (send _ n); simpl in *; auto.
Qed.

Lemma connect_final (env : Env) (n : t) :
  final (connect env n) =
    if State_eqb (state n) DISCONNECTED
    then
      if WebSocket_accepts env (connect_url (options n))
      then set_ws (Some {| ws_url := connect_url (options n);
                           ws_headers := connect_headers env (options n);
                           ws_OPEN := WebSocket_OPEN env;
                           ws_readyState := WS_CONNECTING |})
             (set_state CONNECTING (set_retryAttempts (retryAttempts n + 1) n))
      else set_state CONNECTING (set_retryAttempts (retryAttempts n + 1) n)
    else n.
Proof.
  unfold connect, new_WebSocket, bind, get, modify, emit, throw; simpl.
  destruct (State_eqb (state n) DISCONNECTED); [|reflexivity].
  destruct (WebSocket_accepts env (connect_url (options n))); reflexivity.
Qed.

(** [disconnect] touches nothing but the ready state of the socket. *)
Lemma disconnect_keeps (n : t) :
  state (final (disconnect n)) = state n
  /\ retryAttempts (final (disconnect n)) = retryAttempts n
  /\ options (final (disconnect n)) = options n
  /\ resumed (final (disconnect n)) = resumed n
  /\ (ws (final (disconnect n)) = None <-> ws n = None).
Proof.
  unfold disconnect, bind, get, modify, emit, ret.
  destruct (state n) eqn:Hs; destruct (ws n) eqn:Hw; simpl;
    rewrite ?Hs, ?Hw; repeat split; intros; try assumption; try discriminate.
Qed.

Lemma setupResuming_normal (m : t) :
  exists tr, setupResuming m = Normal tt m tr.
Proof.
  unfold setupResuming, send, bind, get, emit, ret.
  destruct (resumeKey (options m)) as [k|]; [|eexists; reflexivity].
  destruct (negb (str_truthy k)); [eexists; reflexivity|].
  destruct (negb (State_eqb (state m) CONNECTED) || negb (ws_reports_open m));
    eexists; reflexivity.
Qed.

Lemma open_keeps (m : t) :
  state (final (open m)) = CONNECTED
  /\ retryAttempts (final (open m)) = retryAttempts m
  /\ options (final (open m)) = options m
  /\ resumed (final (open m)) = None
  /\ ws (final (open m)) = ws m.
Proof.
  unfold open, bind, get, modify, emit; simpl.
  destruct (resumed m) as [[|]|]; simpl; try (repeat split; fail).
  all: destruct (setupResuming_normal (set_state CONNECTED m)) as [tr ->];
    simpl; repeat split.
Qed.

(** The open event, as delivered: the socket has become OPEN and the
    handler runs. *)
Lemma run_open_final (env : Env) (n : t) :
  state (final (run env OpOpen n)) = CONNECTED
  /\ retryAttempts (final (run env OpOpen n)) = retryAttempts n
  /\ options (final (run env OpOpen n)) = options n
  /\ resumed (final (run env OpOpen n)) = None
  /\ ws (final (run env OpOpen n)) = option_map (set_readyState WS_OPEN) (ws n).
Proof.
  assert (H : final (run env OpOpen n)
              = final (open (set_ws (option_map (set_readyState WS_OPEN) (ws n)) n))).
  { cbn [run]. unfold opened, bind at 1, modify.
    destruct (open _); reflexivity. }
  rewrite H.
  destruct (open_keeps (set_ws (option_map (set_readyState WS_OPEN) (ws n)) n))
    as (H1 & H2 & H3 & H4 & H5).
  rewrite H1, H2, H3, H4, H5. repeat split.
Qed.

Lemma close_final (code : Z) (reason : string) (wasClean : bool) (n : t) :
  final (close code reason wasClean n) = set_ws None (set_state DISCONNECTED n).
Proof.
  unfold close, bind, get, modify, emit; simpl.
  destruct (ws n); simpl; destruct wasClean; simpl; auto;
    destruct (retryAttempts n <? _); reflexivity.
Qed.

Lemma close_trace (code : Z) (reason : string) (wasClean : bool) (n : t) :
  trace (close code reason wasClean n) =
    (match ws n with Some _ => [WsRemoveAllListeners] | None => [] end)
    ++ (if wasClean then [Emit nodeDisconnect]
        else Emit (nodeError (Error (close_message code reason)))
             :: (if retryAttempts n <? nullish (maxRetryAttempts (options n)) 10
                 then [SetTimeout CbConnect
                         (nullish (retryAttemptsInterval (options n)) 5000)]
                 else [])).
Proof.
  unfold close, bind, get, modify, emit; simpl.
  destruct (ws n); simpl; destruct wasClean; simpl; auto;
    destruct (retryAttempts n <? _); reflexivity.
Qed.

Lemma close_thrown (code : Z) (reason : string) (wasClean : bool) (n : t) :
  thrown (close code reason wasClean n) = None.
Proof.
  unfold close, bind, get, modify, emit; simpl.
  destruct (ws n); simpl; destruct wasClean; simpl; auto;
    destruct (retryAttempts n <? _); reflexivity.
Qed.

(** Only [connect] touches the retry counter. *)
Lemma run_retryAttempts (env : Env) (op : Op) (n : t) :
  retryAttempts (final (run env op n)) =
    if is_connect op && State_eqb (state n) DISCONNECTED
    then retryAttempts n + 1 else retryAttempts n.
Proof.
  destruct op; cbn [run is_connect andb].
  - rewrite connect_final. destruct (State_eqb (state n) DISCONNECTED);
      [destruct (WebSocket_accepts env (connect_url (options n)))|]; reflexivity.
  - exact (proj1 (proj2 (disconnect_keeps n))).
  - destruct (send_final payload n) as [-> _]; reflexivity.
  - rewrite setupResuming_final; reflexivity.
  - exact (proj1 (proj2 (run_open_final env n))).
  - unfold message. destruct (JSON_parse env data); reflexivity.
  - reflexivity.
  - rewrite close_final; reflexivity.
  - unfold upgrade. destruct (header_lookup _ _) as [v|]; simpl; auto.
    destruct (String.eqb v "true"); reflexivity.
Qed.

Lemma run_options (env : Env) (op : Op) (n : t) :
  options (final (run env op n)) = options n.
Proof.
  destruct op; cbn [run is_connect andb].
  - rewrite connect_final. destruct (State_eqb (state n) DISCONNECTED);
      [destruct (WebSocket_accepts env (connect_url (options n)))|]; reflexivity.
  - exact (proj1 (proj2 (proj2 (disconnect_keeps n)))).
  - destruct (send_final payload n) as [-> _]; reflexivity.
  - rewrite setupResuming_final; reflexivity.
  - exact (proj1 (proj2 (proj2 (run_open_final env n)))).
  - unfold message. destruct (JSON_parse env data); reflexivity.
  - reflexivity.
  - rewrite close_final; reflexivity.
  - unfold upgrade. destruct (header_lookup _ _) as [v|]; simpl; auto.
    destruct (String.eqb v "true"); reflexivity.
Qed.

Lemma run_all_options (env : Env) (ops : list Op) (n : t) :
  options (run_all env ops n) = options n.
Proof.
  revert n. induction ops as [|op ops IH]; intro n; [reflexivity|].
  change (run_all env (op :: ops) n)
    with (run_all env ops (final (run env op n))).
  rewrite IH. apply run_options.
Qed.

Lemma run_all_app (env : Env) (ops1 ops2 : list Op) (n : t) :
  run_all env (ops1 ++ ops2) n = run_all env ops2 (run_all env ops1 n).
Proof. unfold run_all. apply fold_left_app. Qed.

Lemma run_all_retryAttempts (env : Env) (ops : list Op) (n : t) :
  retryAttempts (run_all env ops n) = retryAttempts n + attempts env ops n.
Proof.
  revert n. induction ops as [|op ops IH]; intro n; simpl.
  - lia.
  - change (run_all env (op :: ops) n)
      with (run_all env ops (final (run env op n))).
    rewrite IH, run_retryAttempts.
    destruct (is_connect op && State_eqb (state n) DISCONNECTED); lia.
Qed.

Lemma attempts_nonneg (env : Env) (ops : list Op) (n : t) :
  0 <= attempts env ops n.
Proof.
  revert n. induction ops as [|op ops IH]; intro n; simpl.
  - lia.
  - specialize (IH (final (run env op n))).
    destruct (is_connect op && State_eqb (state n) DISCONNECTED); lia.
Qed.

Lemma scheduled_reconnect_close (code : Z) (reason : string) (n : t) :
  scheduled_reconnect (trace (close code reason false n)) =
    if retryAttempts n <? nullish (maxRetryAttempts (options n)) 10
    then Some (nullish (retryAttemptsInterval (options n)) 5000)
    else None.
Proof.
  rewrite close_trace.
  destruct (ws n); simpl; destruct (retryAttempts n <? _); reflexivity.
Qed.

(** A connection attempt followed by the close event: the same node
    whether or not the transport could be created. *)
Lemma connect_then_close (env : Env) (code : Z) (reason : string)
      (wasClean : bool) (n : t) :
  state n = DISCONNECTED ->
  final (close code reason wasClean (final (connect env n)))
  = set_ws None
      (set_state DISCONNECTED
         (set_state CONNECTING (set_retryAttempts (retryAttempts n + 1) n)))
  /\ retryAttempts (final (connect env n)) = retryAttempts n + 1
  /\ options (final (connect env n)) = options n.
Proof.
  intro Hst. rewrite close_final, connect_final, Hst. cbn [State_eqb].
  destruct (WebSocket_accepts env (connect_url (options n))); repeat split.
Qed.

(** From a DISCONNECTED node whose counter is [k] short of the maximum,
    the retry loop makes [k + 1] attempts when it has the fuel for
    them. *)
Lemma retry_loop_count (env : Env) (code : Z) (reason : string) :
  forall (k fuel : nat) (n : t),
    state n = DISCONNECTED ->
    retryAttempts n + 1 + Z.of_nat k = nullish (maxRetryAttempts (options n)) 10 ->
    (k < fuel)%nat ->
    fst (retry_loop env code reason fuel n) = Z.of_nat k + 1
    /\ retryAttempts (snd (retry_loop env code reason fuel n))
       = nullish (maxRetryAttempts (options n)) 10.
Proof.
  induction k as [|k IH]; intros fuel n Hst Hr Hfuel.
  - destruct fuel as [|fuel]; [lia|]. cbn [retry_loop].
    destruct (connect_then_close env code reason false n Hst) as (Hcc & Hcr & Hco).
    rewrite scheduled_reconnect_close, Hcc, Hcr, Hco.
    replace (retryAttempts n + 1 <? nullish (maxRetryAttempts (options n)) 10)
      with false by (symmetry; apply Z.ltb_ge; lia).
    cbn [fst snd retryAttempts set_ws set_state set_retryAttempts].
    split; lia.
  - destruct fuel as [|fuel]; [lia|]. cbn [retry_loop].
    destruct (connect_then_close env code reason false n Hst) as (Hcc & Hcr & Hco).
    rewrite scheduled_reconnect_close, Hcc, Hcr, Hco.
    replace (retryAttempts n + 1 <? nullish (maxRetryAttempts (options n)) 10)
      with true by (symmetry; apply Z.ltb_lt; lia).
    cbn [fst snd].
    match goal with
    | |- context [retry_loop env code reason fuel ?m] =>
        destruct (IH fuel m) as [Hc Hs];
        cbn [state retryAttempts options set_ws set_state set_retryAttempts];
        [reflexivity | lia | lia | ]
    end.
    cbn [options set_ws set_state set_retryAttempts] in Hs.
    rewrite Hc, Hs. split; lia.
Qed.


(** What [send] does, in terms of what it tests: it hands the payload to
    the transport exactly when the node is CONNECTED and the [OPEN] property
    of its handle is truthy, and otherwise returns without a trace.  The
    ready state of the socket plays no part. *)
Lemma send_tests_the_OPEN_property (payload : Obj) (n : t) :
  (existsb is_write (trace (send payload n)) = true
     <-> state n = CONNECTED /\ ws_reports_open n = true)
  /\ trace (send payload n)
       = (if State_eqb (state n) CONNECTED && ws_reports_open n
          then [WsSend payload] else [])
  /\ thrown (send payload n) = None
  /\ final (send payload n) = n.
Proof.
  unfold send, bind, get, emit; simpl.
  destruct (state n) eqn:Hs; destruct (ws_reports_open n) eqn:Ho; simpl;
    repeat split; intros; try discriminate; try tauto;
    match goal with H : _ /\ _ |- _ => destruct H; discriminate end.
Qed.

(** C5, at the failing input.  On a CONNECTED node whose socket is CLOSING,
    as it is between [disconnect()] and the close event, the transport does
    not report itself open, yet [send] does not drop the payload: its test
    [this.ws?.OPEN] reads the name of the OPEN state, 1 on every handle,
    instead of comparing [readyState] with it, and the payload is handed to
    [ws.send]. *)
Theorem send_on_closing_socket_is_not_dropped :
  state closing_node = CONNECTED
  /\ option_map ws_readyState (ws closing_node) = Some WS_CLOSING
  /\ transport_open closing_node = false
  /\ send [("op", JStr "stop"); ("guildId", JStr "81384788765712384")] closing_node
     = Normal tt closing_node
         [WsSend [("op", JStr "stop"); ("guildId", JStr "81384788765712384")]].
Proof. repeat split. Qed.

(** C3. The close handler always leaves the node DISCONNECTED with its
    transport handle discarded.  After a clean close it emits
    [nodeDisconnect] and sets no timer.  After an unclean close it emits a
    [nodeError] whose message is "WebSocket closed abnormally with code ",
    the close code in decimal, ": " and the reason (for code 1006 and
    reason "Connection reset" it reads
    "WebSocket closed abnormally with code 1006: Connection reset"), and it
    schedules [connect()] after [retryAttemptsInterval ?? 5000] ms if and
    only if [retryAttempts < (maxRetryAttempts ?? 10)]. *)
Theorem close_reconnects_iff_unclean_and_below_max
        (code : Z) (reason : string) (wasClean : bool) (n : t) :
  let c := close code reason wasClean n in
  let max := nullish (maxRetryAttempts (options n)) 10 in
  let delay := nullish (retryAttemptsInterval (options n)) 5000 in
  state (final c) = DISCONNECTED
  /\ ws (final c) = None
  /\ thrown c = None
  /\ match wasClean with
     | true =>
         In (Emit nodeDisconnect) (trace c)
         /\ existsb is_timer (trace c) = false
         /\ scheduled_reconnect (trace c) = None
     | false =>
         In (Emit (nodeError
                     (Error ("WebSocket closed abnormally with code "
                               ++ string_of_Z code ++ ": " ++ reason)%string)))
            (trace c)
         /\ ~ In (Emit nodeDisconnect) (trace c)
         /\ (scheduled_reconnect (trace c) = Some delay <-> retryAttempts n < max)
         /\ (existsb is_timer (trace c) = true <-> retryAttempts n < max)
     end
  /\ In (Emit (nodeError
                 (Error "WebSocket closed abnormally with code 1006: Connection reset")))
        (trace (close 1006 "Connection reset" false n)).
Proof.
  intros c max delay. subst c.
  assert (Hmsg : In (Emit (nodeError
                   (Error "WebSocket closed abnormally with code 1006: Connection reset")))
                    (trace (close 1006 "Connection reset" false n))).
  { rewrite close_trace.
    change (close_message 1006 "Connection reset")
      with "WebSocket closed abnormally with code 1006: Connection reset".
    apply in_or_app. right. left. reflexivity. }
  rewrite close_final, close_thrown, close_trace.
  unfold close_message.
  split; [reflexivity|]. split; [reflexivity|]. split; [reflexivity|].
  split; [|exact Hmsg]. destruct wasClean.
  - destruct (ws n); simpl; repeat split; auto.
  - subst max delay.
    destruct (Z.ltb_spec (retryAttempts n) (nullish (maxRetryAttempts (options n)) 10));
      destruct (ws n); simpl; repeat split; intros; auto; try lia;
      try discriminate;
      try (intros Hin; repeat (destruct Hin as [Hin|Hin]; try discriminate); exact Hin).
Qed.

(** C7 (amended).  A [connect()] call made while the node is DISCONNECTED
    increases [retryAttempts] by exactly one; a [connect()] call in any
    other state is a no-op and leaves it unchanged.  No other method or
    handler changes [retryAttempts], so over any history of the node it
    never decreases and is never reset. *)
Theorem retryAttempts_changed_only_by_effective_connect (env : Env) :
  (forall n, state n = DISCONNECTED ->
             retryAttempts (final (connect env n)) = retryAttempts n + 1)
  /\ (forall n, state n <> DISCONNECTED -> final (connect env n) = n)
  /\ (forall op n, is_connect op = false ->
                   retryAttempts (final (run env op n)) = retryAttempts n)
  /\ (forall ops n, retryAttempts n <= retryAttempts (run_all env ops n))
  /\ (forall ops n, retryAttempts (run_all env ops n)
                    = retryAttempts n + attempts env ops n).
Proof.
  repeat split.
  - intros n Hs. rewrite connect_final, Hs. cbn [State_eqb].
    destruct (WebSocket_accepts env (connect_url (options n))); reflexivity.
  - intros n Hs. rewrite connect_final.
    apply State_eqb_neq in Hs. rewrite Hs. reflexivity.
  - intros op n Hop. rewrite run_retryAttempts, Hop. reflexivity.
  - intros ops n. rewrite run_all_retryAttempts.
    pose proof (attempts_nonneg env ops n). lia.
  - intros ops n. apply run_all_retryAttempts.
Qed.

(** C9. [retryAttempts] starts at -1 and is incremented at the start of
    each connection attempt, so after the N-th attempt it is N - 1.  The
    unclean-close check [retryAttempts < maxRetryAttempts] therefore still
    schedules a reconnect after the [maxRetryAttempts]-th attempt and
    stops only after the next one: a node whose every attempt ends in an
    unclean close makes [maxRetryAttempts + 1] attempts in all. *)
Theorem retry_bound_admits_one_extra_attempt
        (env : Env) (opts : NodeOptions) (st : NodeStats)
        (code : Z) (reason : string) :
  let max := nullish (maxRetryAttempts opts) 10 in
  let fresh := new opts st in
  0 <= max ->
  retryAttempts fresh = -1
  /\ (forall ops, retryAttempts (run_all env ops fresh)
                  = attempts env ops fresh - 1)
  /\ (forall ops, attempts env ops fresh = max ->
        scheduled_reconnect
          (trace (close code reason false (run_all env ops fresh)))
        = Some (nullish (retryAttemptsInterval opts) 5000))
  /\ (forall ops, attempts env ops fresh = max + 1 ->
        scheduled_reconnect
          (trace (close code reason false (run_all env ops fresh)))
        = None)
  /\ (forall fuel, max < Z.of_nat fuel ->
        fst (retry_loop env code reason fuel fresh) = max + 1).
Proof.
  intros max fresh Hmax.
  assert (Hcount : forall ops, retryAttempts (run_all env ops fresh)
                               = attempts env ops fresh - 1).
  { intro ops. rewrite run_all_retryAttempts. subst fresh.
    cbn [retryAttempts new]. lia. }
  repeat split.
  - exact Hcount.
  - intros ops Hn. rewrite scheduled_reconnect_close, run_all_options, Hcount.
    subst fresh; cbn [options new]. fold max.
    replace (attempts env ops (new opts st) - 1 <? max) with true
      by (symmetry; apply Z.ltb_lt; lia).
    reflexivity.
  - intros ops Hn. rewrite scheduled_reconnect_close, run_all_options, Hcount.
    subst fresh; cbn [options new]. fold max.
    replace (attempts env ops (new opts st) - 1 <? max) with false
      by (symmetry; apply Z.ltb_ge; lia).
    reflexivity.
  - intros fuel Hfuel.
    destruct (retry_loop_count env code reason (Z.to_nat max) fuel fresh)
      as [Hc _]; subst fresh; cbn [state retryAttempts options new];
      try reflexivity; fold max; try lia.
Qed.

(** C9, on the default configuration: eleven attempts for a maximum of
    ten. *)
Lemma retry_bound_default_witness :
  0 <= nullish (maxRetryAttempts opts0) 10
  /\ fst (retry_loop env0 1006 "" 20 (new opts0 (load 0))) = 11.
Proof.
  assert (H : 0 <= nullish (maxRetryAttempts opts0) 10) by (simpl; lia).
  split; [exact H|].
  destruct (retry_bound_admits_one_extra_attempt env0 opts0 (load 0) 1006 "" H)
    as (_ & _ & _ & _ & Hloop).
  apply (Hloop 20%nat). simpl. lia.
Defined.

(** C7, as stated, fails: [connect()] on a node that is already CONNECTED
    does not increase [retryAttempts]. *)
Lemma connect_while_connected_does_not_count :
  state (open_node 0) = CONNECTED
  /\ retryAttempts (final (connect env0 (open_node 0)))
     <> retryAttempts (open_node 0) + 1.
Proof. split; [reflexivity | vm_compute; discriminate]. Qed.

End NodeFacts.

(** * Properties of [sort] *)

Section SortFacts.
Context {A : Type} (key : A -> Z).

(** The comparators of interest compare by a numeric key. *)
Let cmp (a b : A) : Z := key a - key b.

Lemma insert_not_nil (x : A) (l : list A) : insert cmp x l <> [].
Proof. destruct l as [|y l]; simpl; [|destruct (cmp x y <=? 0)]; discriminate. Qed.

Lemma sort_nil_inv (l : list A) : sort cmp l = [] -> l = [].
Proof.
  destruct l as [|x l]; [reflexivity|]. simpl. intro H.
  exfalso. exact (insert_not_nil _ _ H).
Qed.

(** The head of the sorted list is the first element of least key: every
    element before it in the input has a strictly larger key, every
    element after it one at least as large. *)
Lemma sort_head (l : list A) :
  forall a s, sort cmp l = a :: s ->
    exists l1 l2, l = l1 ++ a :: l2
      /\ (forall b, In b l1 -> key a < key b)
      /\ (forall b, In b l2 -> key a <= key b).
Proof.
  induction l as [|x l IH]; intros a s Hs; [discriminate|].
  simpl in Hs. destruct (sort cmp l) as [|y s'] eqn:Hl.
  - apply sort_nil_inv in Hl. subst l. simpl in Hs.
    injection Hs as <- _. exists [], []. repeat split; intros b [].
  - destruct (IH y s' eq_refl) as (l1 & l2 & -> & Hlt & Hle).
    simpl in Hs. unfold cmp in Hs.
    destruct (Z.leb_spec (key x - key y) 0) as [Hxy|Hxy].
    + injection Hs as <- _. exists [], (l1 ++ y :: l2).
      repeat split; [intros b []|].
      intros b Hb. apply in_app_or in Hb. destruct Hb as [Hb|[<-|Hb]].
      * specialize (Hlt b Hb). lia.
      * lia.
      * specialize (Hle b Hb). lia.
    + injection Hs as <- _. exists (x :: l1), l2.
      repeat split; auto.
      intros b [<-|Hb]; [lia|auto].
Qed.

Lemma insert_In (x b : A) (l : list A) : In b (insert cmp x l) <-> b = x \/ In b l.
Proof.
  induction l as [|y l IH]; simpl.
  - intuition.
  - destruct (cmp x y <=? 0); simpl; rewrite ?IH; intuition.
Qed.

Lemma sort_In (b : A) (l : list A) : In b (sort cmp l) <-> In b l.
Proof.
  induction l as [|x l IH]; simpl; [tauto|].
  rewrite insert_In, IH. intuition.
Qed.

Lemma sort_length (l : list A) : List.length (sort cmp l) = List.length l.
Proof.
  induction l as [|x l IH]; simpl; [reflexivity|].
  rewrite <- IH. generalize (sort cmp l). intro s.
  induction s as [|y s IHs]; simpl; [reflexivity|].
  destruct (cmp x y <=? 0); simpl; [reflexivity|]. now rewrite IHs.
Qed.
End SortFacts.

Lemma filter_split {A : Type} (f : A -> bool) (l : list A) :
  forall l1 a l2, filter f l = l1 ++ a :: l2 ->
    exists n1 n2, l = n1 ++ a :: n2 /\ filter f n1 = l1 /\ filter f n2 = l2.
Proof.
  induction l as [|x l IH]; intros l1 a l2 H; simpl in H.
  - destruct l1; discriminate.
  - destruct (f x) eqn:Hx.
    + destruct l1 as [|y l1]; simpl in H; injection H as -> H.
      * exists [], l. auto.
      * destruct (IH _ _ _ H) as (n1 & n2 & -> & <- & <-).
        exists (y :: n1), n2. simpl. rewrite Hx. auto.
    + destruct (IH _ _ _ H) as (n1 & n2 & -> & <- & <-).
      exists (x :: n1), n2. simpl. rewrite Hx. auto.
Qed.

(** * Properties of the player *)

Section PlayerFacts.
Import Player.

Lemma Player_State_eqb_eq (a b : State) : State_eqb a b = true <-> a = b.
Proof. destruct a, b; simpl; split; congruence. Qed.

(** *** Node selection *)

Lemma is_connected_spec (v : Vulkava) (a : addr) :
  is_connected v a = true <-> Node.state (heap v a) = Node.CONNECTED.
Proof. unfold is_connected. apply State_eqb_eq. Qed.

(** X7.  Selection returns a CONNECTED node of the registry whose load is
    least among the CONNECTED ones; among equally loaded candidates it is
    the one configured first, every CONNECTED node configured before it
    being strictly more loaded. *)
Lemma select_node_least_loaded (v : Vulkava) (a : addr) :
  select_node v = Val a ->
  Node.state (heap v a) = Node.CONNECTED
  /\ (forall b, In b (nodes v) -> Node.state (heap v b) = Node.CONNECTED ->
                Node.players (Node.stats (heap v a))
                <= Node.players (Node.stats (heap v b)))
  /\ exists before after,
       nodes v = before ++ a :: after
       /\ forall b, In b before -> Node.state (heap v b) = Node.CONNECTED ->
                    Node.players (Node.stats (heap v a))
                    < Node.players (Node.stats (heap v b)).
Proof.
  unfold select_node. intro H.
  destruct (sort (by_players v) (filter (is_connected v) (nodes v)))
    as [|a' s] eqn:Hs; [discriminate|].
  injection H as ->.
  destruct (sort_head (fun a => Node.players (Node.stats (heap v a))) _ _ _ Hs)
    as (l1 & l2 & Hf & Hlt & Hle).
  destruct (filter_split _ _ _ _ _ Hf) as (n1 & n2 & Hn & Hf1 & Hf2).
  assert (Ha : is_connected v a = true).
  { assert (Hin : In a (filter (is_connected v) (nodes v)))
      by (rewrite Hf; apply in_or_app; right; left; reflexivity).
    apply filter_In in Hin. tauto. }
  split; [apply is_connected_spec; exact Ha|]. split.
  - intros b Hb Hc. apply is_connected_spec in Hc.
    assert (Hin : In b (filter (is_connected v) (nodes v)))
      by (apply filter_In; auto).
    rewrite Hf in Hin. apply in_app_or in Hin.
    destruct Hin as [Hin|[<-|Hin]].
    + specialize (Hlt b Hin). lia.
    + lia.
    + exact (Hle b Hin).
  - exists n1, n2. split; [exact Hn|].
    intros b Hb Hc. apply is_connected_spec in Hc.
    apply Hlt. rewrite <- Hf1. apply filter_In. auto.
Qed.

(** X8.  Selection yields [undefined], never [null], exactly when no node of
    the registry is CONNECTED. *)
Lemma select_node_none (v : Vulkava) :
  (select_node v = Undefined <->
     forall a, In a (nodes v) -> Node.state (heap v a) <> Node.CONNECTED)
  /\ select_node v <> Null.
Proof.
  unfold select_node.
  destruct (sort (by_players v) (filter (is_connected v) (nodes v)))
    as [|a' s] eqn:Hs.
  - split; [|discriminate]. split; [|reflexivity].
    intros _ a Ha Hc. apply is_connected_spec in Hc.
    apply (sort_nil_inv (fun a => Node.players (Node.stats (heap v a)))) in Hs.
    assert (Hin : In a (filter (is_connected v) (nodes v)))
      by (apply filter_In; auto).
    rewrite Hs in Hin. exact Hin.
  - split; [|discriminate]. split; [discriminate|].
    intro Hnone. exfalso.
    assert (Hin : In a' (sort (by_players v) (filter (is_connected v) (nodes v))))
      by (rewrite Hs; left; reflexivity).
    apply (proj1 (sort_In (fun a => Node.players (Node.stats (heap v a))) _ _)) in Hin.
    apply filter_In in Hin. destruct Hin as [Hin Hc].
    apply is_connected_spec in Hc. exact (Hnone a' Hin Hc).
Qed.

(** Loads 5, 2 and 8 with only the first and the third node connected:
    the node with load 5 is selected. *)
Example select_node_registry :
  select_node registry = Val 0%nat
  /\ Node.players (Node.stats (heap registry 0%nat)) = 5.
Proof. split; reflexivity. Qed.

(** C1, at the failing input.  With no node CONNECTED the constructor
    completes and leaves [node] undefined; the guard of [connect()],
    [this.node === null], does not match [undefined], so [connect()]
    returns normally, the player enters CONNECTING and the voice-state
    request is dispatched: no "No available nodes!" error is ever raised
    for a player created without a node. *)
Theorem creation_without_connected_node_is_not_reported :
  (forall a, In a (nodes registry_down) ->
             Node.state (heap registry_down a) <> Node.CONNECTED)
  /\ node (new registry_down popts0) = Undefined
  /\ thrown (connect (new registry_down popts0)) = None
  /\ state (final (connect (new registry_down popts0))) = CONNECTING
  /\ trace (connect (new registry_down popts0))
     = [SendWS "81384788765712384"
          [("op", JNum 4);
           ("d", JObj [("guild_id", JStr "81384788765712384");
                       ("channel_id", JStr "81384788862181376");
                       ("self_mute", JBool false);
                       ("self_deaf", JBool false)])]].
Proof.
  split.
  - intros a Ha. simpl in Ha.
    destruct Ha as [<-|[<-|[<-|[]]]]; vm_compute; discriminate.
  - repeat split.
Qed.

(** *** play *)

Ltac unfold_exec :=
  cbv [bind ret get modify emit throw final trace thrown
       node_send deref_node current_encodedTrack].

Lemma play_without_node (options : option Obj) (p : t) :
  node p = Null ->
  play options p = Throw (Error "No available nodes!") p [].
Proof. intro Hn. unfold play. unfold_exec. rewrite Hn. reflexivity. Qed.

(** A player whose [node] is [undefined] passes the guard, but [play] still
    ends in an exception: the precondition error on an empty queue, or a
    [TypeError] when [send] is looked up on [undefined]. *)
Lemma play_with_undefined_node (options : option Obj) (p : t) :
  node p = Undefined ->
  exists e, thrown (play options p) = Some e.
Proof.
  intro Hn.
  destruct (current p) as [| |c] eqn:Hc; destruct (trackRepeat p) eqn:Hr;
    destruct (queue p) as [|tr rest] eqn:Hq;
    unfold play, shift_into_current; unfold_exec;
    rewrite ?Hn, ?Hc, ?Hr, ?Hq; simpl; rewrite ?Hn, ?Hq; simpl;
    rewrite ?Hn; simpl; eauto.
Qed.

Lemma play_on_empty_queue (options : option Obj) (p : t) :
  node p <> Null ->
  falsy (current p) = true ->
  trackRepeat p = false ->
  queue p = [] ->
  play options p = Throw (Error "The queue is empty!") p [].
Proof.
  intros Hn Hc Hr Hq. unfold play. unfold_exec.
  destruct (node p) as [| |a]; [congruence| |]; rewrite Hc, Hr, Hq; reflexivity.
Qed.

(** X22.  With a track at the front of the queue, and either no current track or
    track-repeat off, [play] makes that track current, removes it from the
    queue and then hands the node a play command for it. *)
Lemma play_dequeues_front (options : option Obj) (p : t) (a : addr)
      (tr : Track) (rest : list Track) :
  node p = Val a ->
  queue p = tr :: rest ->
  falsy (current p) = true \/ trackRepeat p = false ->
  play options p =
    Normal tt (set_current (Val tr) (set_queue rest p))
           [NodeSend a (play_payload p tr options)].
Proof.
  intros Hn Hq Hc.
  destruct (trackRepeat p) eqn:Hr; destruct (falsy (current p)) eqn:Hf;
    try (destruct Hc; discriminate);
    unfold play, shift_into_current, play_payload; unfold_exec;
    repeat (rewrite ?Hn, ?Hq, ?Hr, ?Hf; simpl); reflexivity.
Qed.

(** X23.  With a current track and track-repeat on, [play] replays it and leaves
    the queue alone. *)
Lemma play_repeats_current (options : option Obj) (p : t) (a : addr) (c : Track) :
  node p = Val a ->
  current p = Val c ->
  trackRepeat p = true ->
  play options p = Normal tt p [NodeSend a (play_payload p c options)].
Proof.
  intros Hn Hc Hr. unfold play, play_payload. unfold_exec.
  repeat (rewrite ?Hn, ?Hc, ?Hr; simpl). reflexivity.
Qed.

(** [play()] with [current = null], [trackRepeat = false] and
    [queue = [A, B]] sets [current = A] and leaves [queue = [B]]. *)
Example play_from_queue_A_B :
  let p := set_queue [trackA; trackB] player0 in
  current (final (play None p)) = Val trackA
  /\ queue (final (play None p)) = [trackB]
  /\ thrown (play None p) = None
  /\ trace (play None p)
     = [NodeSend 0%nat
          [("op", JStr "play"); ("guildId", JStr "81384788765712384");
           ("track", JStr "QAAAjQIAJVJpY2sgQXN0bGV5")]].
Proof. repeat split. Qed.

(** C10. When [play()] is called with a current track, track-repeat off and
    an empty queue, the "queue is empty" error is not raised, because its
    guard requires that there be no current track; the current track is
    replaced by the result of [shift()] on the empty queue, which is
    [undefined], and reading its [encodedTrack] for the play command throws
    a [TypeError]: no command is sent. *)
Theorem play_with_current_on_empty_queue_dereferences_nothing
        (options : option Obj) (p : t) (a : addr) (c : Track) :
  node p = Val a ->
  current p = Val c ->
  trackRepeat p = false ->
  queue p = [] ->
  play options p =
    Throw (TypeError "Cannot read properties of undefined (reading 'encodedTrack')")
          (set_current Undefined p) []
  /\ thrown (play options p) <> Some (Error "The queue is empty!")
  /\ current (final (play options p)) = Undefined.
Proof.
  intros Hn Hc Hr Hq.
  assert (H : play options p =
              Throw (TypeError "Cannot read properties of undefined (reading 'encodedTrack')")
                    (set_current Undefined p) []).
  { unfold play, shift_into_current. unfold_exec.
    repeat (rewrite ?Hn, ?Hc, ?Hr, ?Hq; simpl). reflexivity. }
  rewrite H. repeat split. simpl. discriminate.
Qed.

Lemma play_with_current_on_empty_queue_witness :
  current (final (play None player_playing)) = Undefined.
Proof.
  exact (proj2 (proj2
    (play_with_current_on_empty_queue_dereferences_nothing
       None player_playing 0%nat trackA eq_refl eq_refl eq_refl eq_refl))).
Defined.

(** C6, at the failing input.  A player with a node, a current track,
    track-repeat off and an empty queue passes both guards of [play()];
    nothing is dequeued, the current track is overwritten with [undefined],
    and the call ends in a [TypeError] without any play command having been
    sent. *)
Theorem play_after_last_track_throws_without_playing :
  let p := set_current (Val trackB) player0 in
  node p = Val 0%nat
  /\ current p = Val trackB /\ trackRepeat p = false /\ queue p = []
  /\ thrown (play None p)
     = Some (TypeError "Cannot read properties of undefined (reading 'encodedTrack')")
  /\ trace (play None p) = []
  /\ current (final (play None p)) = Undefined.
Proof. repeat split. Qed.

(** *** moveNode *)

Lemma ref_eqb_spec (r : Ref addr) (a : addr) : ref_eqb r a = true <-> r = Val a.
Proof.
  destruct r as [| |b]; simpl; try (split; discriminate).
  rewrite Nat.eqb_eq. split; congruence.
Qed.

Lemma moveNode_absent (v : Vulkava) (target : Ref addr) (p : t) :
  falsy target = true ->
  moveNode v target p = Throw (TypeError "You must provide a Node instance.") p [].
Proof. destruct target; simpl; intro H; [reflexivity|reflexivity|discriminate]. Qed.

Lemma moveNode_not_connected (v : Vulkava) (a : addr) (p : t) :
  is_connected v a = false ->
  moveNode v (Val a) p = Throw (Error "The provided node is not connected.") p [].
Proof. intro H. unfold moveNode. rewrite H. reflexivity. Qed.

Lemma moveNode_same (v : Vulkava) (a : addr) (p : t) :
  is_connected v a = true ->
  node p = Val a ->
  moveNode v (Val a) p = Normal tt p [].
Proof.
  intros H Hn. unfold moveNode. rewrite H. cbn [negb]. unfold_exec.
  rewrite Hn. simpl. rewrite Nat.eqb_refl. reflexivity.
Qed.

(** The migration proper, from the node at [old] to a different, CONNECTED
    node at [a]. *)
Lemma moveNode_moves (v : Vulkava) (a old : addr) (p : t) :
  is_connected v a = true ->
  node p = Val old ->
  a <> old ->
  moveNode v (Val a) p =
    Normal tt
      (let q := set_node (Val a) (set_moving (Some true) p) in
       let q := if has_voice p then set_state CONNECTED (set_state CONNECTING q) else q in
       match playing p, current p with
       | true, Val _ => q
       | _, _ => set_moving (Some false) q
       end)
      (NodeSend old (destroy_payload p)
       :: (if has_voice p then [NodeSend a (voiceUpdate_payload p)] else [])
       ++ match playing p, current p with
          | true, Val tr =>
              [NodeSend a (play_payload_at (guildId p) (encodedTrack tr) (position p))]
          | _, _ => []
          end).
Proof.
  intros H Hn Hne.
  assert (He : (old =? a)%nat = false) by (apply Nat.eqb_neq; congruence).
  unfold moveNode, sendVoiceUpdate, voiceUpdate_payload, destroy_payload.
  rewrite H. cbn [negb]. unfold_exec.
  destruct (has_voice p) eqn:Hv; destruct (playing p) eqn:Hp;
    destruct (current p) eqn:Hc;
    repeat (rewrite ?Hn, ?He, ?Hv, ?Hp, ?Hc; simpl); reflexivity.
Qed.

(** C4 (amended).  For a player that has a node: [moveNode(target)] throws
    when [target] is null or undefined or not CONNECTED, and is a no-op when
    [target] is CONNECTED and already the player's node.  Otherwise it sets
    [moving], sends [destroy] for the guild to the old node, makes [target]
    the player's node, resends the voice update to it when voice credentials
    are established, and, when the player is playing and has a current
    track, sends [target] a play command for that track whose [startTime] is
    the recorded position, [moving] still being true when the call returns;
    when the player is not playing or has no current track, no play command
    is sent and [moving] is false on return. *)
Theorem moveNode_migrates_session (v : Vulkava) (p : t) (old : addr) :
  node p = Val old ->
  (forall target, falsy target = true ->
     moveNode v target p
     = Throw (TypeError "You must provide a Node instance.") p [])
  /\ (forall a, Node.state (heap v a) <> Node.CONNECTED ->
       moveNode v (Val a) p
       = Throw (Error "The provided node is not connected.") p [])
  /\ (Node.state (heap v old) = Node.CONNECTED ->
       moveNode v (Val old) p = Normal tt p [])
  /\ (forall a, Node.state (heap v a) = Node.CONNECTED -> a <> old ->
       let c := moveNode v (Val a) p in
       thrown c = None
       /\ node (final c) = Val a
       /\ state (final c) = (if has_voice p then CONNECTED else state p)
       /\ trace c
          = NodeSend old (destroy_payload p)
            :: (if has_voice p then [NodeSend a (voiceUpdate_payload p)] else [])
            ++ match playing p, current p with
               | true, Val tr =>
                   [NodeSend a (play_payload_at (guildId p) (encodedTrack tr)
                                                (position p))]
               | _, _ => []
               end
       /\ moving (final c) = Some (playing p && negb (falsy (current p)))
       /\ (current (final c), queue (final c), position (final c), playing (final c))
          = (current p, queue p, position p, playing p)).
Proof.
  intro Hn. split; [|split; [|split]].
  - intros target Ht. apply moveNode_absent. exact Ht.
  - intros a Ha. apply moveNode_not_connected.
    destruct (is_connected v a) eqn:Hc; [|reflexivity].
    apply is_connected_spec in Hc. contradiction.
  - intro Ho. apply moveNode_same; [apply is_connected_spec; exact Ho|exact Hn].
  - intros a Ha Hne c. subst c.
    rewrite (moveNode_moves v a old p) by (try apply is_connected_spec; auto).
    destruct (has_voice p); destruct (playing p) eqn:Hp;
      destruct (current p) eqn:Hc; simpl; rewrite ?Hp, ?Hc; repeat split.
Qed.

(** On the sample registry: the player playing [trackA] at 42 s is moved
    from node 0 to node 2, which receives a play command starting there. *)
Lemma moveNode_migrates_session_witness :
  node (final (moveNode registry (Val 2%nat) player_playing)) = Val 2%nat
  /\ moving (final (moveNode registry (Val 2%nat) player_playing)) = Some true
  /\ In (NodeSend 2%nat (play_payload_at "81384788765712384"
                                        "QAAAjQIAJVJpY2sgQXN0bGV5" 42000))
        (trace (moveNode registry (Val 2%nat) player_playing)).
Proof.
  assert (Hn : node player_playing = Val 0%nat) by reflexivity.
  destruct (moveNode_migrates_session registry player_playing 0%nat Hn)
    as (_ & _ & _ & Hmove).
  assert (Hc : Node.state (heap registry 2%nat) = Node.CONNECTED) by reflexivity.
  assert (Hne : 2%nat <> 0%nat) by discriminate.
  pose proof (Hmove 2%nat Hc Hne) as Hm. cbv zeta in Hm.
  destruct Hm as (_ & Hnode & _ & Htr & Hmov & _).
  split; [exact Hnode|]. split; [exact Hmov|].
  unfold addr in *. rewrite Htr. right. right. left. reflexivity.
Defined.

(** C4, as stated, fails.  A player whose [playing] flag is set but which
    has no current track is moved without any play command being sent to
    the new node, and [moving] is cleared at once.  Besides, a target that
    is the player's own node but is not CONNECTED is refused rather than
    ignored, and a player that has no node cannot be moved at all: the
    [destroy] for the old node throws before the node is reassigned. *)
Lemma moveNode_playing_without_current_sends_no_play :
  let p := set_current Null player_playing in
  (playing p = true
   /\ node p = Val 0%nat
   /\ Node.state (heap registry 2%nat) = Node.CONNECTED
   /\ thrown (moveNode registry (Val 2%nat) p) = None
   /\ existsb is_play_command (trace (moveNode registry (Val 2%nat) p)) = false
   /\ moving (final (moveNode registry (Val 2%nat) p)) = Some false)
  /\ (node player0 = Val 0%nat
      /\ thrown (moveNode registry_down (Val 0%nat) player0)
         = Some (Error "The provided node is not connected."))
  /\ (node orphan = Undefined
      /\ thrown (moveNode registry (Val 2%nat) orphan)
         = Some (TypeError "Cannot read properties of undefined (reading 'send')")
      /\ node (final (moveNode registry (Val 2%nat) orphan)) = Undefined
      /\ trace (moveNode registry (Val 2%nat) orphan) = []).
Proof. repeat split. Qed.

(** *** updatePlayer and the transport state *)

(** Case analysis on the innermost conditions first, so that the tests a
    method makes are decided before the completions built from them. *)
Ltac destruct_matches :=
  repeat match goal with
         | |- context [match ?x with _ => _ end] =>
             lazymatch x with
             | context [match _ with _ => _ end] => fail
             | _ => destruct x eqn:?; simpl
             end
         end.

Lemma updatePlayer_thrown (st : PlayerState) (p : t) :
  thrown (updatePlayer st p) = None /\ trace (updatePlayer st p) = [].
Proof.
  unfold updatePlayer. unfold_exec.
  destruct (ps_position st) as [z|]; [destruct (num_truthy z)|];
    destruct (ps_connected st); simpl; destruct (state p); simpl; auto.
Qed.

Lemma updatePlayer_position (st : PlayerState) (p : t) :
  position (final (updatePlayer st p))
  = match ps_position st with
    | Some z => if num_truthy z then z else position p
    | None => position p
    end.
Proof.
  unfold updatePlayer. unfold_exec.
  destruct (ps_position st) as [z|]; [destruct (num_truthy z)|];
    destruct (ps_connected st); simpl; destruct (state p); simpl; auto.
Qed.

Lemma updatePlayer_state (st : PlayerState) (p : t) :
  state (final (updatePlayer st p))
  = if ps_connected st then CONNECTED else DISCONNECTED.
Proof.
  unfold updatePlayer. unfold_exec.
  destruct (ps_position st) as [z|]; [destruct (num_truthy z)|];
    destruct (ps_connected st); simpl; destruct (state p) eqn:Hs; simpl; auto.
Qed.

(** No method assigns [positionTimestamp]: it keeps the 0 the constructor
    gave it. *)
Lemma run_positionTimestamp (v : Vulkava) (op : Op) (p : t) :
  positionTimestamp (final (run v op p)) = positionTimestamp p.
Proof.
  destruct op; simpl;
    unfold destroy, seek, moveNode;
    unfold connect, disconnect, ping, play, setTrackLoop,
      setQueueLoop, skip, pause, sendVoiceUpdate, updatePlayer,
      shift_into_current;
    unfold_exec; simpl; destruct_matches; reflexivity.
Qed.

(** Apart from [updatePlayer] and [moveNode], no method leaves a player
    CONNECTED that was not CONNECTED before. *)
Lemma run_state_connected (v : Vulkava) (op : Op) (p : t) :
  is_updatePlayer op = false ->
  is_moveNode op = false ->
  state (final (run v op p)) = CONNECTED ->
  state p = CONNECTED.
Proof.
  intros Hu Hm.
  destruct op; try discriminate; simpl;
    unfold destroy, seek;
    unfold connect, disconnect, ping, play, setTrackLoop,
      setQueueLoop, skip, pause, sendVoiceUpdate, shift_into_current;
    unfold_exec; simpl; destruct_matches; simpl;
    try (intro; assumption); try discriminate;
    try (intros _; match goal with H : State_eqb _ CONNECTED = true |- _ =>
                                     apply Player_State_eqb_eq in H; exact H end).
Qed.

(** C2 (amended).  For every call of [updatePlayer(state)]: when the report
    carries a non-zero position, [position] is set to it, and when it
    carries none, [position] is kept; the transport state moves to
    CONNECTED exactly when the report says connected and the player was not
    CONNECTED, and to DISCONNECTED exactly when the report says not
    connected and the player was not DISCONNECTED.  A player that is
    CONNECTING becomes CONNECTED only through [updatePlayer] or through
    [moveNode], which marks the player CONNECTED after resending
    established voice credentials. *)
Theorem updatePlayer_applies_report (st : PlayerState) (p : t) :
  let p' := final (updatePlayer st p) in
  thrown (updatePlayer st p) = None
  /\ (forall z, ps_position st = Some z -> z <> 0 -> position p' = z)
  /\ (ps_position st = None -> position p' = position p)
  /\ (state p <> CONNECTED /\ state p' = CONNECTED
      <-> ps_connected st = true /\ state p <> CONNECTED)
  /\ (state p <> DISCONNECTED /\ state p' = DISCONNECTED
      <-> ps_connected st = false /\ state p <> DISCONNECTED)
  /\ (state p = CONNECTING -> ps_connected st = true -> state p' = CONNECTED)
  /\ (forall v op q, state q = CONNECTING ->
                     state (final (run v op q)) = CONNECTED ->
                     is_updatePlayer op = true \/ is_moveNode op = true).
Proof.
  intro p'. subst p'.
  rewrite updatePlayer_position, updatePlayer_state.
  split; [apply updatePlayer_thrown|].
  split.
  { intros z Hz Hnz. rewrite Hz. unfold num_truthy.
    destruct (Z.eqb_spec z 0); [contradiction|reflexivity]. }
  split; [intro Hz; rewrite Hz; reflexivity|].
  split.
  { destruct (ps_connected st); split; intros [H1 H2]; split;
      auto; discriminate. }
  split.
  { destruct (ps_connected st); split; intros [H1 H2]; split;
      auto; discriminate. }
  split.
  { intros _ Hc. rewrite Hc. reflexivity. }
  intros v op q Hq Hfin.
  destruct (is_updatePlayer op) eqn:Hu; [left; reflexivity|].
  destruct (is_moveNode op) eqn:Hm; [right; reflexivity|].
  pose proof (run_state_connected v op q Hu Hm Hfin) as Hc.
  rewrite Hq in Hc. discriminate.
Qed.

(** C2, as stated, fails in three places: a report with a position leaves
    [positionTimestamp] at 0 instead of the time of the call; a reported
    position of 0 is not applied; and [moveNode], not [updatePlayer], takes
    a CONNECTING player with voice credentials to CONNECTED. *)
Lemma updatePlayer_claim_fails :
  positionTimestamp
    (final (updatePlayer {| ps_position := Some 1500; ps_connected := true |}
                         player_playing)) <> now0
  /\ position
       (final (updatePlayer {| ps_position := Some 0; ps_connected := true |}
                            player_playing)) <> 0
  /\ (state player_connecting = CONNECTING
      /\ state (final (moveNode registry (Val 2%nat) player_connecting)) = CONNECTED).
Proof.
  split; [vm_compute; discriminate|].
  split; [vm_compute; discriminate|].
  split; reflexivity.
Qed.

(** *** exactPosition *)

(** Only [updatePlayer] assigns [position]. *)
Lemma run_position (v : Vulkava) (op : Op) (p : t) :
  is_updatePlayer op = false ->
  position (final (run v op p)) = position p.
Proof.
  intro Hu.
  destruct op; try discriminate; simpl;
    unfold destroy, seek, moveNode;
    unfold connect, disconnect, ping, play, setTrackLoop,
      setQueueLoop, skip, pause, sendVoiceUpdate, shift_into_current;
    unfold_exec; simpl; destruct_matches; reflexivity.
Qed.

Lemma run_all_exactPosition (h : list (Vulkava * Op)) (p : t) (now : Z) :
  no_updatePlayer h = true ->
  exactPosition now (run_all h p) = exactPosition now p.
Proof.
  revert p. induction h as [|[v op] h IH]; intros p Hh; [reflexivity|].
  simpl in Hh. apply andb_true_iff in Hh. destruct Hh as [Hop Hh].
  apply negb_true_iff in Hop.
  change (run_all ((v, op) :: h) p) with (run_all h (final (run v op p))).
  rewrite IH by exact Hh. unfold exactPosition.
  rewrite run_position by exact Hop. rewrite run_positionTimestamp. reflexivity.
Qed.

(** C8. [exactPosition] read at time [now] is
    [position + (now - positionTimestamp)].  Between two [updatePlayer]
    calls no method changes [position] or [positionTimestamp], so whatever
    the player is asked to do in between, a read at [t2] yields at least
    what a read at an earlier [t1] yielded. *)
Theorem exactPosition_monotone
        (p : t) (h : list (Vulkava * Op)) (t1 t2 : Z) :
  no_updatePlayer h = true ->
  t1 <= t2 ->
  exactPosition t1 p = position p + (t1 - positionTimestamp p)
  /\ exactPosition t2 (run_all h p)
     = position p + (t2 - positionTimestamp p)
  /\ exactPosition t1 p <= exactPosition t2 (run_all h p).
Proof.
  intros Hh Ht. rewrite run_all_exactPosition by exact Hh.
  unfold exactPosition. repeat split. lia.
Qed.

Lemma exactPosition_monotone_witness :
  exactPosition now0 player_playing
  <= exactPosition (now0 + 250)
       (run_all [(registry, OpPause (JBool true)); (registry, OpSeek (JNum 60000))]
                player_playing).
Proof.
  assert (Hh : no_updatePlayer
                 [(registry, OpPause (JBool true)); (registry, OpSeek (JNum 60000))]
               = true) by reflexivity.
  assert (Ht : now0 <= now0 + 250) by (unfold now0; lia).
  exact (proj2 (proj2 (exactPosition_monotone player_playing _ now0 (now0 + 250) Hh Ht))).
Defined.

End PlayerFacts.

(** * The node lifecycle beyond the retry policy *)

Section NodeLifecycle.
Import Node.



(** X2. [disconnect()] does not cancel a pending reconnect.  After an
    unclean close that scheduled one, the node is DISCONNECTED without a
    handle, so [disconnect()] returns at once: nothing is changed and no
    effect of any kind is produced.  The timer then fires and [connect()]
    starts a new attempt, counting it and marking the node CONNECTING. *)
Theorem disconnect_does_not_cancel_pending_reconnect
        (env : Env) (code : Z) (reason : string) (n : t) :
  retryAttempts n < nullish (maxRetryAttempts (options n)) 10 ->
  let n1 := final (close code reason false n) in
  scheduled_reconnect (trace (close code reason false n))
  = Some (nullish (retryAttemptsInterval (options n)) 5000)
  /\ disconnect n1 = Normal tt n1 []
  /\ state (final (connect env (final (disconnect n1)))) = CONNECTING
  /\ retryAttempts (final (connect env (final (disconnect n1))))
     = retryAttempts n + 1.
Proof.
  intros Hlt n1. subst n1.
  rewrite scheduled_reconnect_close, close_final.
  replace (retryAttempts n <? nullish (maxRetryAttempts (options n)) 10)
    with true by (symmetry; apply Z.ltb_lt; exact Hlt).
  split; [reflexivity|].
  assert (Hd : disconnect (set_ws None (set_state DISCONNECTED n))
               = Normal tt (set_ws None (set_state DISCONNECTED n)) [])
    by reflexivity.
  rewrite Hd. split; [reflexivity|]. cbn [final].
  rewrite connect_final. cbn [state set_ws set_state State_eqb options].
  destruct (WebSocket_accepts env (connect_url (options n))); split; reflexivity.
Qed.

Lemma disconnect_does_not_cancel_pending_reconnect_witness :
  disconnect (final (close 1006 "" false (open_node 0)))
  = Normal tt (final (close 1006 "" false (open_node 0))) []
  /\ state (final (connect env0
                     (final (disconnect (final (close 1006 "" false (open_node 0)))))))
     = CONNECTING.
Proof.
  assert (H : retryAttempts (open_node 0)
              < nullish (maxRetryAttempts (options (open_node 0))) 10)
    by (vm_compute; reflexivity).
  destruct (disconnect_does_not_cancel_pending_reconnect env0 1006 "" (open_node 0) H)
    as (_ & Hd & Hs & _).
  split; [exact Hd|exact Hs].
Defined.

(** X3. The open handler marks the node CONNECTED, announces it, and clears
    the resumed flag whatever its value.  It writes a [configureResuming]
    frame, with the configured timeout or 60, exactly when the session was
    not resumed, a non-empty resume key is configured and the handle reports
    itself open. *)
Theorem open_configures_resuming_unless_resumed (n : t) :
  thrown (open n) = None
  /\ state (final (open n)) = CONNECTED
  /\ resumed (final (open n)) = None
  /\ (ws (final (open n)), retryAttempts (final (open n)), options (final (open n)))
     = (ws n, retryAttempts n, options n)
  /\ trace (open n)
     = Emit nodeConnect
       :: match resumed n, resumeKey (options n) with
          | Some true, _ => []
          | _, None => []
          | _, Some k =>
              if str_truthy k && ws_reports_open n
              then [WsSend [("op", JStr "configureResuming");
                            ("key", JStr k);
                            ("timeout",
                             JNum (nullish (resumeTimeout (options n)) 60))]]
              else []
          end.
Proof.
  unfold open, setupResuming, send, ws_reports_open,
    bind, get, modify, emit, ret.
  destruct (resumed n) as [[|]|] eqn:Hr;
    destruct (resumeKey (options n)) as [k|] eqn:Hk;
    try destruct (str_truthy k) eqn:Ht;
    destruct (ws n) as [w|] eqn:Hw;
    try destruct (num_truthy (ws_OPEN w)) eqn:Ho;
    repeat (rewrite ?Hr, ?Hk, ?Ht, ?Hw, ?Ho; simpl);
    repeat split.
Qed.

(** X4. When the handshake response says the session was resumed, the
    upgrade handler announces the resume and the open handler that follows
    writes no [configureResuming] frame; the flag is consumed, so the next
    connection configures resuming again. *)
Theorem resumed_session_is_not_reconfigured
        (msg_headers : list (string * string)) (n : t) :
  header_lookup "session-resumed" msg_headers = Some "true" ->
  let n1 := final (upgrade msg_headers n) in
  trace (upgrade msg_headers n) = [Emit nodeResume]
  /\ trace (open n1) = [Emit nodeConnect]
  /\ resumed (final (open n1)) = None
  /\ trace (open (final (open n1))) = trace (open (set_resumed None n)).
Proof.
  intros Hh n1. subst n1.
  unfold upgrade. rewrite Hh. cbn [String.eqb Ascii.eqb Bool.eqb].
  unfold open, setupResuming, send, bind, get, modify, emit, ret. cbn.
  repeat split.
Qed.

Lemma resumed_session_is_not_reconfigured_witness :
  trace (open (final (upgrade [("session-resumed", "true")]
                              (final (connect env0 resuming_node)))))
  = [Emit nodeConnect].
Proof.
  exact (proj1 (proj2
    (resumed_session_is_not_reconfigured
       [("session-resumed", "true")]
       (final (connect env0 resuming_node)) eq_refl))).
Defined.

Lemma open_state_ws (n : t) :
  ws (final (open n)) = ws n /\ state (final (open n)) = CONNECTED.
Proof.
  destruct (open_keeps n) as (H1 & _ & _ & _ & H5). split; assumption.
Qed.





(** X6. Through a connection's life, [send] reaches the wire only between
    the open and the close event: a payload handed to a DISCONNECTED node,
    or to one whose connection attempt is still under way, is dropped; after
    the open event of a transport that could be created it is written (the
    [OPEN] property of the library's handles being truthy); after the close
    event it is dropped again. *)
Theorem send_reaches_wire_only_while_open
        (env : Env) (payload : Obj) (code : Z) (reason : string)
        (wasClean : bool) (n : t) :
  state n = DISCONNECTED ->
  WebSocket_OPEN env <> 0 ->
  trace (send payload n) = []
  /\ trace (send payload (run_all env [OpConnect] n)) = []
  /\ (WebSocket_accepts env (connect_url (options n)) = true ->
      trace (send payload (run_all env [OpConnect; OpOpen] n)) = [WsSend payload])
  /\ trace (send payload
              (run_all env [OpConnect; OpOpen; OpClose code reason wasClean] n))
     = [].
Proof.
  intros Hs Ho.
  assert (Hopen : num_truthy (WebSocket_OPEN env) = true).
  { unfold num_truthy. destruct (Z.eqb_spec (WebSocket_OPEN env) 0);
      [contradiction|reflexivity]. }
  assert (Hst : forall m, state m = CONNECTED -> ws_reports_open m = true ->
                          trace (send payload m) = [WsSend payload]).
  { intros m H1 H2. unfold send, bind, get, emit, ret. rewrite H1, H2. reflexivity. }
  assert (Hdrop : forall m, state m <> CONNECTED -> trace (send payload m) = []).
  { intros m H1. unfold send, bind, get, emit, ret.
    apply State_eqb_neq in H1. rewrite H1. reflexivity. }
  split; [apply Hdrop; rewrite Hs; discriminate|].
  split.
  { apply Hdrop. unfold run_all. cbn [fold_left run]. rewrite connect_final, Hs.
    cbn [State_eqb].
    destruct (WebSocket_accepts env (connect_url (options n))); discriminate. }
  split.
  { intro Ha.
    destruct (run_open_final env (final (run env OpConnect n)))
      as (H1 & _ & _ & _ & H5).
    apply Hst; unfold run_all; cbn [fold_left]; [exact H1|].
    unfold ws_reports_open. rewrite H5. cbn [run].
    rewrite connect_final, Hs, Ha. simpl. exact Hopen. }
  apply Hdrop. unfold run_all. cbn [fold_left].
  change (run env (OpClose code reason wasClean))
    with (close code reason wasClean).
  rewrite close_final. cbn [state set_ws set_state]. discriminate.
Qed.

Lemma send_reaches_wire_only_while_open_witness :
  trace (send [("op", JStr "stop")] (run_all env0 [OpConnect; OpOpen] (fresh_node 0)))
  = [WsSend [("op", JStr "stop")]].
Proof.
  assert (Ho : WebSocket_OPEN env0 <> 0) by discriminate.
  exact (proj1 (proj2 (proj2
    (send_reaches_wire_only_while_open env0 [("op", JStr "stop")] 1000 "" true
       (fresh_node 0) eq_refl Ho))) eq_refl).
Defined.

(** X25. The retry budget is never replenished.  Once [retryAttempts] has
    reached the configured maximum, whatever happens to the node
    afterwards, successful reconnections included, no unclean close
    schedules a reconnect any more. *)
Theorem exhausted_retries_are_never_replenished
        (env : Env) (ops : list Op) (code : Z) (reason : string) (n : t) :
  nullish (maxRetryAttempts (options n)) 10 <= retryAttempts n ->
  scheduled_reconnect (trace (close code reason false (run_all env ops n))) = None
  /\ existsb is_timer (trace (close code reason false (run_all env ops n))) = false.
Proof.
  intro Hmax.
  assert (Hlt : (retryAttempts (run_all env ops n)
                 <? nullish (maxRetryAttempts (options (run_all env ops n))) 10)
                = false).
  { rewrite run_all_options, run_all_retryAttempts.
    pose proof (attempts_nonneg env ops n). apply Z.ltb_ge. lia. }
  split.
  - rewrite scheduled_reconnect_close, Hlt. reflexivity.
  - rewrite close_trace, Hlt. destruct (ws (run_all env ops n)); reflexivity.
Qed.

Lemma exhausted_retries_are_never_replenished_witness :
  scheduled_reconnect
    (trace (close 1006 "" false
              (run_all env0 [OpConnect; OpOpen]
                 (snd (retry_loop env0 1006 "" 20 (fresh_node 0))))))
  = None.
Proof.
  assert (H : nullish (maxRetryAttempts
                         (options (snd (retry_loop env0 1006 "" 20 (fresh_node 0))))) 10
              <= retryAttempts (snd (retry_loop env0 1006 "" 20 (fresh_node 0))))
    by (vm_compute; discriminate).
  exact (proj1 (exhausted_retries_are_never_replenished
                  env0 [OpConnect; OpOpen] 1006 "" _ H)).
Defined.

End NodeLifecycle.

(** * The player's operations beyond the claims *)

Section PlayerOperations.
Import Player.

Ltac exec_unfold :=
  cbv [bind ret get modify emit throw final trace thrown
       node_send deref_node current_encodedTrack].

Ltac split_matches :=
  repeat match goal with
         | |- context [match ?x with _ => _ end] =>
             lazymatch x with
             | context [match _ with _ => _ end] => fail
             | _ => destruct x eqn:?; simpl
             end
         end.

(** X7, on the sample registry: node 0 is selected, node 2 is the only
    other candidate and is more loaded. *)
Lemma select_node_least_loaded_witness :
  Node.state (heap registry 0%nat) = Node.CONNECTED
  /\ Node.players (Node.stats (heap registry 0%nat))
     <= Node.players (Node.stats (heap registry 2%nat)).
Proof.
  destruct (select_node_least_loaded registry 0%nat eq_refl) as (H1 & H2 & _).
  split; [exact H1|].
  apply H2; [right; right; left; reflexivity|reflexivity].
Defined.

Lemma str_truthy_spec (s : string) : str_truthy s = true <-> s <> "".
Proof.
  unfold str_truthy. destruct (String.eqb_spec s ""); simpl; split;
    congruence.
Qed.

(** X9. [connect()] followed by [disconnect()] on a DISCONNECTED player
    that has a node and a voice channel brings the player back to exactly
    the state it started from, having sent the gateway one join request for
    the channel and one leave request; in between the player is
    CONNECTING. *)
Theorem connect_then_disconnect_round_trip (p : t) :
  state p = DISCONNECTED ->
  node p <> Null ->
  voiceChannelId p <> "" ->
  final (disconnect (final (connect p))) = p
  /\ state (final (connect p)) = CONNECTING
  /\ trace (connect p) = [SendWS (guildId p) (join_request p)]
  /\ trace (disconnect (final (connect p))) = [SendWS (guildId p) (leave_request p)].
Proof.
  intros Hs Hn Hv. apply str_truthy_spec in Hv.
  assert (Hnull : is_null (node p) = false)
    by (destruct (node p); [congruence|reflexivity|reflexivity]).
  unfold connect, disconnect, join_request, leave_request. exec_unfold.
  rewrite Hs, Hnull, Hv. simpl.
  repeat split.
  destruct p; simpl in *; subst; reflexivity.
Qed.

Lemma connect_then_disconnect_round_trip_witness :
  final (disconnect (final (connect player0))) = player0.
Proof.
  assert (Hn : node player0 <> Null) by discriminate.
  assert (Hv : voiceChannelId player0 <> "") by discriminate.
  exact (proj1 (connect_then_disconnect_round_trip player0 eq_refl Hn Hv)).
Defined.

(** X10. When [connect()] throws, nothing has been changed and nothing has
    been sent; the player was not CONNECTED, and the error is
    "No available nodes!" if the node reference is null, whether or not a
    voice channel is set, and "No voice channel id provided" otherwise. *)
Theorem connect_fails_before_changing_anything (p : t) (e : JsError) :
  thrown (connect p) = Some e ->
  connect p = Throw e p []
  /\ state p <> CONNECTED
  /\ (node p = Null /\ e = Error "No available nodes!"
      \/ node p <> Null /\ voiceChannelId p = ""
         /\ e = Error "No voice channel id provided").
Proof.
  unfold connect. exec_unfold.
  destruct (State_eqb (state p) CONNECTED) eqn:Hs; [discriminate|].
  assert (Hst : state p <> CONNECTED).
  { intro H. rewrite H in Hs. discriminate. }
  destruct (node p) as [| |a] eqn:Hn; simpl.
  - intro H. injection H as <-. repeat split; auto.
  - destruct (str_truthy (voiceChannelId p)) eqn:Hv; simpl; [discriminate|].
    intro H. injection H as <-. repeat split; auto.
    right. split; [discriminate|]. split; [|reflexivity].
    destruct (String.eqb_spec (voiceChannelId p) ""); [assumption|].
    unfold str_truthy in Hv.
    destruct (String.eqb_spec (voiceChannelId p) ""); [contradiction|discriminate].
  - destruct (str_truthy (voiceChannelId p)) eqn:Hv; simpl; [discriminate|].
    intro H. injection H as <-. repeat split; auto.
    right. split; [discriminate|]. split; [|reflexivity].
    unfold str_truthy in Hv.
    destruct (String.eqb_spec (voiceChannelId p) ""); [assumption|discriminate].
Qed.

Lemma connect_fails_before_changing_anything_witness :
  connect player_detached = Throw (Error "No available nodes!") player_detached [].
Proof.
  exact (proj1 (connect_fails_before_changing_anything
                  player_detached (Error "No available nodes!") eq_refl)).
Defined.

(** X11. [disconnect()] never throws and always leaves the player
    DISCONNECTED; it sends the gateway a leave request exactly when the
    player was not DISCONNECTED already, so a second [disconnect()] sends
    nothing and changes nothing. *)
Theorem disconnect_is_idempotent (p : t) :
  thrown (disconnect p) = None
  /\ state (final (disconnect p)) = DISCONNECTED
  /\ trace (disconnect p)
     = (if State_eqb (state p) DISCONNECTED then []
        else [SendWS (guildId p) (leave_request p)])
  /\ disconnect (final (disconnect p)) = Normal tt (final (disconnect p)) [].
Proof.
  unfold disconnect, leave_request. exec_unfold.
  destruct (State_eqb (state p) DISCONNECTED) eqn:Hs; simpl.
  - rewrite Hs. apply Player_State_eqb_eq in Hs. repeat split. exact Hs.
  - repeat split.
Qed.

(** X12. [destroy()] on a player that has a node leaves voice if the player
    had not left already, then tells the node to discard the guild's
    session, then removes the player from the registry, in that order, and
    leaves the player DISCONNECTED. *)
Theorem destroy_tears_down_in_order (p : t) (a : addr) :
  node p = Val a ->
  thrown (destroy p) = None
  /\ state (final (destroy p)) = DISCONNECTED
  /\ trace (destroy p)
     = (if State_eqb (state p) DISCONNECTED then []
        else [SendWS (guildId p) (leave_request p)])
       ++ [NodeSend a (destroy_payload p); PlayersDelete (guildId p)].
Proof.
  intro Hn. unfold destroy, disconnect, leave_request, destroy_payload.
  exec_unfold.
  destruct (State_eqb (state p) DISCONNECTED) eqn:Hs;
    repeat (rewrite ?Hn; simpl); repeat split.
  apply Player_State_eqb_eq in Hs. exact Hs.
Qed.

Lemma destroy_tears_down_in_order_witness :
  trace (destroy player_playing)
  = [SendWS "81384788765712384" (leave_request player_playing);
     NodeSend 0%nat (destroy_payload player_playing);
     PlayersDelete "81384788765712384"].
Proof.
  exact (proj2 (proj2 (destroy_tears_down_in_order player_playing 0%nat eq_refl))).
Defined.

(** X13. [destroy()] on a player without a node (null or undefined) leaves
    voice and then throws a [TypeError] on [this.node.send]: the player is
    never removed from the registry. *)
Theorem destroy_without_node_stays_registered (p : t) :
  falsy (node p) = true ->
  (exists msg, thrown (destroy p) = Some (TypeError msg))
  /\ state (final (destroy p)) = DISCONNECTED
  /\ trace (destroy p) = trace (disconnect p)
  /\ (forall g, ~ In (PlayersDelete g) (trace (destroy p))).
Proof.
  intro Hn. unfold destroy, disconnect. exec_unfold.
  destruct (node p) as [| |a] eqn:Hnode; try discriminate;
    destruct (State_eqb (state p) DISCONNECTED) eqn:Hs;
    repeat (rewrite ?Hnode; simpl);
    (split; [eexists; reflexivity|]);
    (split; [try reflexivity; apply Player_State_eqb_eq in Hs; exact Hs|]);
    (split; [reflexivity|]);
    intros g Hin; simpl in Hin;
    repeat (destruct Hin as [Hin|Hin]; try discriminate); exact Hin.
Qed.

Lemma destroy_without_node_stays_registered_witness :
  ~ In (PlayersDelete "81384788765712384") (trace (destroy orphan)).
Proof.
  exact (proj2 (proj2 (proj2 (destroy_without_node_stays_registered orphan eq_refl)))
           "81384788765712384").
Defined.

(** X14. [skip(amount)] on a playing player removes [amount] tracks from
    the front of the queue, all of them when there are no more than that
    and none when [amount] is not positive, leaves the current track alone
    and sends the node a stop command. *)
Theorem skip_drops_from_front (amount : Z) (p : t) (a : addr) :
  playing p = true ->
  node p = Val a ->
  skip amount p
  = Normal tt (set_queue (skipn (Z.to_nat amount) (queue p)) p)
           [NodeSend a [("op", JStr "stop"); ("guildId", JStr (guildId p))]]
  /\ List.length (queue (final (skip amount p)))
     = (List.length (queue p) - Z.to_nat amount)%nat
  /\ current (final (skip amount p)) = current p.
Proof.
  intros Hp Hn.
  assert (H : skip amount p
              = Normal tt (set_queue (skipn (Z.to_nat amount) (queue p)) p)
                  [NodeSend a [("op", JStr "stop"); ("guildId", JStr (guildId p))]]).
  { unfold skip. exec_unfold. rewrite Hp. simpl.
    destruct (Z.geb_spec amount (Z.of_nat (List.length (queue p)))) as [Hge|Hlt];
      simpl; rewrite Hn; simpl; [|reflexivity].
    rewrite skipn_all2 by lia. reflexivity. }
  rewrite H. cbn [final queue set_queue current]. repeat split.
  apply length_skipn.
Qed.

Lemma skip_drops_from_front_witness :
  queue (final (skip 1 player_queued)) = [trackA]
  /\ queue (final (skip 5 player_queued)) = [].
Proof.
  split.
  - rewrite (proj1 (skip_drops_from_front 1 player_queued 0%nat eq_refl eq_refl)).
    reflexivity.
  - rewrite (proj1 (skip_drops_from_front 5 player_queued 0%nat eq_refl eq_refl)).
    reflexivity.
Defined.

(** X15. [seek(position)] on a playing player with a current track: a
    position beyond the track's duration behaves exactly as [skip()], and
    no seek command is sent; any other position, the duration itself
    included, is sent to the node as a seek command and changes nothing in
    the player. *)
Theorem seek_past_the_end_skips (z : Z) (p : t) (tr : Track) :
  playing p = true ->
  current p = Val tr ->
  (duration tr < z -> seek (JNum z) p = skip 1 p)
  /\ (z <= duration tr -> forall a, node p = Val a ->
       seek (JNum z) p
       = Normal tt p
           [NodeSend a [("op", JStr "seek"); ("guildId", JStr (guildId p));
                        ("position", JNum z)]]).
Proof.
  intros Hp Hc. split.
  - intro Hz. unfold seek. exec_unfold. rewrite Hp, Hc.
    replace (z >? duration tr) with true by (symmetry; apply Z.gtb_lt; lia).
    destruct (skip 1 p); reflexivity.
  - intros Hz a Hn. unfold seek. exec_unfold. rewrite Hp, Hc.
    replace (z >? duration tr) with false
      by (symmetry; destruct (Z.gtb_spec z (duration tr)); [lia|reflexivity]).
    rewrite Hn. reflexivity.
Qed.

Lemma seek_past_the_end_skips_witness :
  seek (JNum 212001) player_queued = skip 1 player_queued
  /\ trace (seek (JNum 212000) player_queued)
     = [NodeSend 0%nat [("op", JStr "seek"); ("guildId", JStr "81384788765712384");
                        ("position", JNum 212000)]].
Proof.
  destruct (seek_past_the_end_skips 212001 player_queued trackA eq_refl eq_refl)
    as [Hskip _].
  destruct (seek_past_the_end_skips 212000 player_queued trackA eq_refl eq_refl)
    as [_ Hseek].
  split.
  - apply Hskip. simpl. lia.
  - rewrite (Hseek ltac:(simpl; lia) 0%nat eq_refl). reflexivity.
Defined.

(** X16. On a player that is not playing, [skip] and [seek] do nothing at
    all, and so does [seek] on a player without a current track: the
    argument of [seek] is not even type-checked, and a missing node goes
    unnoticed. *)
Theorem skip_and_seek_are_inert_when_idle (p : t) :
  playing p = false \/ falsy (current p) = true ->
  (forall v, seek v p = Normal tt p [])
  /\ (playing p = false -> forall amount, skip amount p = Normal tt p []).
Proof.
  intro H. split.
  - intro v. unfold seek. exec_unfold.
    destruct H as [H|H].
    + rewrite H. reflexivity.
    + destruct (playing p); destruct (current p); try discriminate; reflexivity.
  - intros Hp amount. unfold skip. exec_unfold. rewrite Hp. reflexivity.
Qed.

Lemma skip_and_seek_are_inert_when_idle_witness :
  seek (JStr "1:30") orphan = Normal tt orphan []
  /\ skip 1 orphan = Normal tt orphan [].
Proof.
  destruct (skip_and_seek_are_inert_when_idle orphan (or_introl eq_refl))
    as [Hseek Hskip].
  split; [apply Hseek|apply Hskip; reflexivity].
Defined.

(** X17. [pause(state)] treats a missing argument as [true] and rejects
    anything that is not a boolean with a [TypeError] before touching the
    player.  For a boolean it records the flag and sends the node a pause
    command, whether or not anything is playing; on a player without a node
    the flag is recorded all the same although the command cannot be
    sent. *)
Theorem pause_defaults_and_validates (p : t) :
  pause JUndefined p = pause (JBool true) p
  /\ (forall v, is_pause_argument v = false ->
                pause v p = Throw (TypeError "State must be a boolean") p [])
  /\ (forall b a, node p = Val a ->
                  pause (JBool b) p
                  = Normal tt (set_paused b p)
                      [NodeSend a [("op", JStr "pause");
                                   ("guildId", JStr (guildId p));
                                   ("pause", JBool b)]])
  /\ (forall b, falsy (node p) = true ->
                paused (final (pause (JBool b) p)) = b
                /\ trace (pause (JBool b) p) = []
                /\ exists msg, thrown (pause (JBool b) p) = Some (TypeError msg)).
Proof.
  split; [reflexivity|]. split.
  { intros v Hv. destruct v; try discriminate; reflexivity. }
  split.
  { intros b a Hn. unfold pause. exec_unfold. simpl. rewrite Hn. reflexivity. }
  intros b Hn. unfold pause. exec_unfold. simpl.
  destruct (node p); try discriminate; simpl; repeat split; eexists; reflexivity.
Qed.

(** *** What the methods leave alone *)

Lemma run_node (v : Vulkava) (op : Op) (p : t) :
  is_moveNode op = false ->
  node (final (run v op p)) = node p.
Proof.
  intro Hm.
  destruct op; try discriminate; simpl;
    unfold destroy, seek;
    unfold connect, disconnect, ping, play, setTrackLoop, setQueueLoop,
      skip, pause, sendVoiceUpdate, updatePlayer, shift_into_current;
    exec_unfold; simpl; split_matches; first [reflexivity | congruence].
Qed.

Lemma run_guildId (v : Vulkava) (op : Op) (p : t) :
  guildId (final (run v op p)) = guildId p
  /\ voiceState (final (run v op p)) = voiceState p
  /\ playing (final (run v op p)) = playing p.
Proof.
  destruct op; simpl;
    unfold destroy, seek, moveNode;
    unfold connect, disconnect, ping, play, setTrackLoop, setQueueLoop,
      skip, pause, sendVoiceUpdate, updatePlayer, shift_into_current;
    exec_unfold; simpl; split_matches; repeat split; congruence.
Qed.

(** X18. The player's node reference changes only through [moveNode]: over
    any history of calls without one the player keeps its node.  And no
    call at all, [moveNode] included, changes the guild id, the voice
    credentials or the [playing] flag, which are set from outside. *)
Theorem node_changes_only_through_moveNode (h : list (Vulkava * Op)) (p : t) :
  (no_moveNode h = true -> node (run_all h p) = node p)
  /\ guildId (run_all h p) = guildId p
  /\ voiceState (run_all h p) = voiceState p
  /\ playing (run_all h p) = playing p.
Proof.
  revert p. induction h as [|[v op] h IH]; intro p; [repeat split|].
  change (run_all ((v, op) :: h) p) with (run_all h (final (run v op p))).
  destruct (IH (final (run v op p))) as (Hn & Hg & Hv & Hp).
  destruct (run_guildId v op p) as (Hg1 & Hv1 & Hp1).
  rewrite Hg, Hv, Hp, Hg1, Hv1, Hp1. repeat split.
  intro Hh. unfold no_moveNode in Hh. simpl in Hh.
  apply andb_true_iff in Hh. destruct Hh as [Hop Hh].
  apply negb_true_iff in Hop.
  rewrite Hn by exact Hh. apply run_node. exact Hop.
Qed.

Lemma skip_queue (amount : Z) (p : t) :
  exists k, queue (final (skip amount p)) = skipn k (queue p).
Proof.
  unfold skip. exec_unfold.
  destruct (playing p); simpl; [|exists 0%nat; reflexivity].
  destruct (amount >=? Z.of_nat (List.length (queue p))); simpl;
    destruct (node p); simpl.
  all: first [ exists (List.length (queue p)); symmetry; apply skipn_all
             | exists (Z.to_nat amount); reflexivity ].
Qed.

Lemma seek_queue (sv : JsVal) (p : t) :
  exists k, queue (final (seek sv p)) = skipn k (queue p).
Proof.
  unfold seek. exec_unfold.
  destruct (playing p); [|exists 0%nat; reflexivity].
  destruct (current p) as [| |tr]; try (exists 0%nat; reflexivity).
  destruct sv; try (exists 0%nat; reflexivity).
  destruct (z >? duration tr).
  - destruct (skip_queue 1 p) as [k Hk]. exists k.
    destruct (skip 1 p); exact Hk.
  - destruct (node p); exists 0%nat; reflexivity.
Qed.

Lemma run_queue (v : Vulkava) (op : Op) (p : t) :
  exists k, queue (final (run v op p)) = skipn k (queue p).
Proof.
  destruct op as [| | |target| |o|b|b|amount|pv|sv| |st]; simpl;
    [ | | | | | | | |apply skip_queue| |apply seek_queue| | ];
    unfold destroy, moveNode;
    unfold connect, disconnect, ping, play, setTrackLoop, setQueueLoop,
      pause, sendVoiceUpdate, updatePlayer, shift_into_current;
    exec_unfold; simpl; split_matches;
    first [ exists 0%nat; simpl; congruence | exists 1%nat; simpl; congruence ].
Qed.

(** X19. No method ever adds a track: after any history of calls the queue
    is what is left of the original queue once some number of tracks has
    been taken from its front, so tracks are neither reordered nor
    re-queued. *)
Theorem queue_only_loses_its_front (h : list (Vulkava * Op)) (p : t) :
  exists k, queue (run_all h p) = skipn k (queue p).
Proof.
  revert p. induction h as [|[v op] h IH]; intro p; [exists 0%nat; reflexivity|].
  change (run_all ((v, op) :: h) p) with (run_all h (final (run v op p))).
  destruct (IH (final (run v op p))) as [k Hk].
  destruct (run_queue v op p) as [j Hj].
  exists (j + k)%nat. rewrite Hk, Hj. rewrite skipn_skipn.
  f_equal. apply Nat.add_comm.
Qed.

(** X20. The queue-repeat flag is write-only: [setQueueLoop] stores it, but
    no method reads it.  Whatever its value, every call throws or returns
    alike, has the same effects and leaves the same player, the flag
    itself apart. *)
Theorem queueRepeat_is_never_read (v : Vulkava) (op : Op) (p : t) (b : bool) :
  trace (run v op (set_queueRepeat b p)) = trace (run v op p)
  /\ thrown (run v op (set_queueRepeat b p)) = thrown (run v op p)
  /\ final (run v op (set_queueRepeat b p))
     = match op with
       | OpSetQueueLoop b' => set_queueRepeat b' p
       | _ => set_queueRepeat b (final (run v op p))
       end.
Proof.
  destruct op as [| | |target| |o|b1|b2|amount|pv|sv| |st]; simpl;
    unfold destroy, seek, moveNode;
    unfold connect, disconnect, ping, play, setTrackLoop, setQueueLoop,
      skip, pause, sendVoiceUpdate, updatePlayer, shift_into_current,
      voiceUpdate_payload, destroy_payload, has_voice;
    exec_unfold; simpl; split_matches; repeat split.
Qed.

(** *** Frames on the wire during a migration *)






(** *** play, where the queue is not empty *)

(** X22, on the sample player: with [trackA] current and [trackB] at the
    front of the queue, [play()] makes [trackB] current and plays it. *)
Lemma play_dequeues_front_witness :
  play None player_queued
  = Normal tt (set_current (Val trackB) (set_queue [trackA] player_queued))
           [NodeSend 0%nat (play_payload player_queued trackB None)].
Proof.
  exact (play_dequeues_front None player_queued 0%nat trackB [trackA]
           eq_refl eq_refl (or_intror eq_refl)).
Defined.

(** X23, on the sample player: with track-repeat on, [play()] replays
    [trackA] with the caller's start time and keeps both queued tracks. *)
Lemma play_repeats_current_witness :
  play (Some [("startTime", JNum 1000)]) player_looping
  = Normal tt player_looping
           [NodeSend 0%nat
              (play_payload player_looping trackA (Some [("startTime", JNum 1000)]))].
Proof.
  exact (play_repeats_current (Some [("startTime", JNum 1000)]) player_looping
           0%nat trackA eq_refl eq_refl eq_refl).
Defined.

(** X24. [play()] on a player whose node is undefined, as the constructor
    leaves it when no node is CONNECTED, takes the front track off the
    queue and makes it current before it throws on [this.node.send]: the
    player is changed although nothing was played. *)
Theorem play_without_node_still_consumes_the_queue
        (options : option Obj) (p : t) (tr : Track) (rest : list Track) :
  node p = Undefined ->
  queue p = tr :: rest ->
  falsy (current p) = true \/ trackRepeat p = false ->
  play options p
  = Throw (TypeError "Cannot read properties of undefined (reading 'send')")
          (set_current (Val tr) (set_queue rest p)) [].
Proof.
  intros Hn Hq Hc.
  destruct (trackRepeat p) eqn:Hr; destruct (falsy (current p)) eqn:Hf;
    try (destruct Hc; discriminate);
    unfold play, shift_into_current; exec_unfold;
    repeat (rewrite ?Hn, ?Hq, ?Hr, ?Hf; simpl); reflexivity.
Qed.

Lemma play_without_node_still_consumes_the_queue_witness :
  queue (final (play None orphan_queued)) = [trackB]
  /\ current (final (play None orphan_queued)) = Val trackA.
Proof.
  rewrite (play_without_node_still_consumes_the_queue None orphan_queued
             trackA [trackB] eq_refl eq_refl (or_introl eq_refl)).
  split; reflexivity.
Defined.

End PlayerOperations.
